(** * static_link.py: merge static archives and localize symbols

    A shallow embedding of [scripts/static_link.py] (Python 2): the
    regular expressions it applies to the output of [objdump] and [nm],
    the two symbol generators, the command lines it builds and the
    sequence of subprocesses [main] runs, over an explicit model of the
    file system and of the external tools. *)

From Stdlib Require Import ZArith Ascii String.
From stdpp Require Import gmap strings list fin_maps.

Local Open Scope string_scope.

(** ** Characters

    Python 2 [str] is a byte string; without [re.LOCALE] or [re.UNICODE]
    the classes [\w] and [\s] are the ASCII ones. *)

Module Chars.

Definition in_range (lo hi : nat) (c : ascii) : bool :=
  (lo <=? nat_of_ascii c)%nat && (nat_of_ascii c <=? hi)%nat.

(** [\w] is [[a-zA-Z0-9_]]. *)
Definition is_word (c : ascii) : bool :=
  in_range 97 122 c || in_range 65 90 c || in_range 48 57 c
  || (nat_of_ascii c =? 95)%nat.

(** [\s] is [[ \t\n\r\f\v]]. *)
Definition is_space (c : ascii) : bool :=
  (nat_of_ascii c =? 32)%nat || in_range 9 13 c.

Definition newline : ascii := ascii_of_nat 10.
Definition slash : ascii := "/"%char.
Definition dot : ascii := "."%char.

Definition is_newline (c : ascii) : bool := (nat_of_ascii c =? 10)%nat.

(** Every character of the string satisfies [p]. *)
Fixpoint all (p : ascii -> bool) (s : string) : bool :=
  match s with
  | EmptyString => true
  | String c s' => p c && all p s'
  end.

End Chars.

(** ** Strings *)

Module Str.

(** The last character of [a], or [prev] when [a] is empty. *)
Fixpoint last_char (prev : option ascii) (a : string) : option ascii :=
  match a with
  | EmptyString => prev
  | String c a' => last_char (Some c) a'
  end.

End Str.

(** ** Regular expressions

    The fragment of Python's [re] syntax the script and its examples use,
    with the backtracking semantics of [re]: alternatives left to right,
    greedy repetition, the first match found wins. *)

Module Re.
Import Chars.

Inductive cset : Type :=
| Word        (* \w *)
| NonWord     (* \W *)
| Space       (* \s *)
| NonSpace    (* \S *)
| AnyChar.    (* .  (any character but a newline) *)

Definition in_cset (k : cset) (c : ascii) : bool :=
  match k with
  | Word => is_word c
  | NonWord => negb (is_word c)
  | Space => is_space c
  | NonSpace => negb (is_space c)
  | AnyChar => negb (is_newline c)
  end.

Inductive regex : Type :=
| Eps                               (* the empty pattern *)
| Chr (c : ascii)                   (* a literal character *)
| Cls (k : cset)                    (* a character class *)
| Seq (r1 r2 : regex)               (* r1r2 *)
| Alt (r1 r2 : regex)               (* r1|r2 *)
| Star (r : regex)                  (* r*, greedy *)
| Group (n : nat) (r : regex)       (* (r), capturing group number n *)
| Bol                               (* ^ *)
| Eol                               (* $ *)
| WordB.                            (* \b *)

(** r+ is rr*. *)
Definition Plus (r : regex) : regex := Seq r (Star r).

(** A literal string. *)
Fixpoint Lit (s : string) : regex :=
  match s with
  | EmptyString => Eps
  | String c s' => Seq (Chr c) (Lit s')
  end.

(** The groups captured so far, latest first. *)
Definition caps : Type := list (nat * string).

(** A position in the subject: the character before it (if any) and the
    text after it. *)
Definition cont : Type := option ascii -> string -> caps -> option caps.
Definition matcher : Type := option ascii -> string -> cont -> caps -> option caps.

Definition word_before (prev : option ascii) : bool :=
  match prev with Some c => is_word c | None => false end.

Definition word_after (s : string) : bool :=
  match s with String c _ => is_word c | EmptyString => false end.

(** [$] without [re.MULTILINE]: at the end of the subject, or just before
    a newline that ends it. *)
Definition at_eol (s : string) : bool :=
  match s with
  | EmptyString => true
  | String c EmptyString => is_newline c
  | _ => false
  end.

(** The text between two positions [s] and its suffix [s']. *)
Fixpoint take (n : nat) (s : string) : string :=
  match n, s with
  | S n', String c s' => String c (take n' s')
  | _, _ => EmptyString
  end.

Definition consumed (s s' : string) : string :=
  take (String.length s - String.length s') s.

(** Greedy repetition: one more iteration of [body] first, the
    continuation when that fails.  An iteration that consumes nothing
    is not repeated, so [fuel] above the length of the text is never
    used up. *)
Fixpoint star_loop (body : matcher) (fuel : nat) : matcher :=
  fun prev s k g =>
    match fuel with
    | O => k prev s g
    | S fuel' =>
        match body prev s
                (fun prev' s' g' =>
                   if (String.length s' <? String.length s)%nat
                   then star_loop body fuel' prev' s' k g'
                   else None) g with
        | Some g' => Some g'
        | None => k prev s g
        end
    end.

Fixpoint match_at (r : regex) : matcher :=
  fun prev s k g =>
    match r with
    | Eps => k prev s g
    | Chr c =>
        match s with
        | String c' s' => if Ascii.eqb c c' then k (Some c') s' g else None
        | EmptyString => None
        end
    | Cls cs =>
        match s with
        | String c' s' => if in_cset cs c' then k (Some c') s' g else None
        | EmptyString => None
        end
    | Seq r1 r2 => match_at r1 prev s (fun prev' s' g' => match_at r2 prev' s' k g') g
    | Alt r1 r2 =>
        match match_at r1 prev s k g with
        | Some g' => Some g'
        | None => match_at r2 prev s k g
        end
    | Star r' => star_loop (match_at r') (S (String.length s)) prev s k g
    | Group n r' =>
        match_at r' prev s (fun prev' s' g' => k prev' s' ((n, consumed s s') :: g')) g
    | Bol => match prev with None => k prev s g | Some _ => None end
    | Eol => if at_eol s then k prev s g else None
    | WordB => if xorb (word_before prev) (word_after s) then k prev s g else None
    end.

Definition accept : cont := fun _ _ g => Some g.

(** [re.match(r, s)]: a match starting at the first character. *)
Definition re_match (r : regex) (s : string) : option caps :=
  match_at r None s accept [].

(** [re.search(r, s)]: the match at the leftmost position that has one. *)
Fixpoint search_from (r : regex) (prev : option ascii) (s : string) : option caps :=
  match match_at r prev s accept [] with
  | Some g => Some g
  | None =>
      match s with
      | EmptyString => None
      | String c s' => search_from r (Some c) s'
      end
  end.

Definition re_search (r : regex) (s : string) : option caps :=
  search_from r None s.

(** [m.group(n)] of a match. *)
Fixpoint group (n : nat) (g : caps) : option string :=
  match g with
  | [] => None
  | (i, s) :: g' => if (i =? n)%nat then Some s else group n g'
  end.

End Re.

Import Chars Re.

(** ** The three patterns of the script *)

(** [r'\.hidden (\w+)$'] *)
Definition hidden_re : regex :=
  Seq (Lit ".hidden ") (Seq (Group 1 (Plus (Cls Word))) Eol).

(** [r'__\S*get_pc_thunk'] *)
Definition thunk_re : regex :=
  Seq (Lit "__") (Seq (Star (Cls NonSpace)) (Lit "get_pc_thunk")).

(** [r'\b(\w+)$'] *)
Definition global_re : regex :=
  Seq WordB (Seq (Group 1 (Plus (Cls Word))) Eol).

Definition nl : string := String newline EmptyString.


(** ** Paths ([os.path] on POSIX) *)

Module Posixpath.
Import Str.

Definition is_slash (c : ascii) : bool := Ascii.eqb c slash.
Definition is_dot (c : ascii) : bool := Ascii.eqb c dot.

(** [(p[:i], p[i:])] for [i = p.rfind('/') + 1]. *)
Fixpoint cut_last_slash (p : string) : string * string :=
  match p with
  | EmptyString => (EmptyString, EmptyString)
  | String c p' =>
      let (h, t) := cut_last_slash p' in
      if is_slash c then (String c h, t)
      else match h with
           | EmptyString => (EmptyString, String c t)
           | _ => (String c h, t)
           end
  end.

(** [s.rstrip('/')] *)
Fixpoint rstrip_slash (s : string) : string :=
  match s with
  | EmptyString => EmptyString
  | String c s' =>
      match rstrip_slash s' with
      | EmptyString => if is_slash c then EmptyString else String c EmptyString
      | r => String c r
      end
  end.

(** [os.path.split]: the head loses its trailing slashes unless it is
    made of slashes only. *)
Definition split (p : string) : string * string :=
  let (head, tail) := cut_last_slash p in
  if negb (String.eqb head "") && negb (all is_slash head)
  then (rstrip_slash head, tail)
  else (head, tail).

(** [(p[:i], p[i:])] for [i = p.rfind('.')], when [p] has a dot. *)
Fixpoint cut_last_dot (p : string) : option (string * string) :=
  match p with
  | EmptyString => None
  | String c p' =>
      match cut_last_dot p' with
      | Some (r, e) => Some (String c r, e)
      | None => if is_dot c then Some (EmptyString, p) else None
      end
  end.

(** [os.path.splitext]: the extension starts at the last dot of the last
    component, unless only dots come before it in that component. *)
Definition splitext (p : string) : string * string :=
  let (head, tail) := cut_last_slash p in
  match cut_last_dot tail with
  | Some (root, ext) =>
      if all is_dot root then (p, EmptyString) else (head +:+ root, ext)
  | None => (p, EmptyString)
  end.

Definition starts_with_slash (p : string) : bool :=
  match p with String c _ => is_slash c | EmptyString => false end.

Definition ends_with_slash (p : string) : bool :=
  match last_char None p with Some c => is_slash c | None => false end.

(** [os.path.join(a, b)] *)
Definition join (a b : string) : string :=
  if starts_with_slash b then b
  else if String.eqb a "" || ends_with_slash a then a +:+ b
  else a +:+ "/" +:+ b.

End Posixpath.

Import Posixpath.

(** ** Lines of a stream

    The values [iter(process.stdout.readline, '')] goes through: the text
    cut after each newline, every line keeping its newline, the last one
    having none when the text does not end with one. *)

Fixpoint readlines (text : string) : list string :=
  match text with
  | EmptyString => []
  | String c text' =>
      if is_newline c then String c EmptyString :: readlines text'
      else match readlines text' with
           | [] => [String c EmptyString]
           | line :: rest => String c line :: rest
           end
  end.

(** ** The per-line work of the two generators *)

(** Lines 53-62: the symbol a line of [objdump -t] yields, if any. *)
Definition hidden_symbol (line : string) : option string :=
  match re_search hidden_re line with
  | None => None
  | Some m =>
      match group 1 m with
      | None => None
      | Some symbol =>
          match re_match thunk_re symbol with
          | Some _ => None
          | None => Some symbol
          end
      end
  end.

(** Lines 83-85: the symbol a line of [nm] yields, if any. *)
Definition global_symbol (line : string) : option string :=
  match re_search global_re line with
  | None => None
  | Some m => group 1 m
  end.

(** What [iter_hidden_symbols] yields over a whole [objdump] output. *)
Definition hidden_symbols (text : string) : list string :=
  omap hidden_symbol (readlines text).

(** What [iter_global_symbols] yields over a whole [nm] output. *)
Definition global_symbols (text : string) : list string :=
  omap global_symbol (readlines text).

(** ** The world: files, diagnostics, child processes *)

Inductive node : Type :=
| File (data : string)
| Dir.

(** [subprocess.CalledProcessError(returncode, cmd)], the one exception
    the script raises itself.  The exceptions of the libraries are not
    modelled: [OSError] for a program that cannot be started,
    [ValueError] from [shlex.split] on unbalanced quotes, [IOError] from
    [open] or [mkdtemp].  A run here ends normally or with the non-zero
    exit of a child. *)
Inductive exn : Type :=
| CalledProcessError (returncode : Z) (cmd : list string).

Record World : Type := mkWorld {
  fs : gmap string node;              (* path to file or directory *)
  VERBOSE : bool;                     (* the module's global *)
  stderr : list string;               (* lines printed by echo_err *)
  procs : list (list string * Z)      (* children run so far, with exit status *)
}.

(** What the script does not contain: the tokenizer of [shlex], the name
    [tempfile.mkdtemp] picks, and the external programs.  A child run by
    [check_call] may change files; the two children read through a pipe
    ([objdump -t], [nm]) only print. *)
Record Env : Type := mkEnv {
  shlex_split : string -> list string;
  mkdtemp_name : string -> gmap string node -> string;
  child : list string -> gmap string node -> Z * gmap string node;
  child_stdout : list string -> gmap string node -> string * Z
}.

Inductive result (A : Type) : Type :=
| Ok (a : A)
| Raise (e : exn).
Arguments Ok {A} a.
Arguments Raise {A} e.

(** Computations that change the world and may raise. *)
Definition M (A : Type) : Type := World -> result A * World.

#[export] Instance M_ret : MRet M := fun A a w => (Ok a, w).
#[export] Instance M_bind : MBind M := fun A B f m w =>
  match m w with
  | (Ok a, w') => f a w'
  | (Raise e, w') => (Raise e, w')
  end.

Definition raise {A : Type} (e : exn) : M A := fun w => (Raise e, w).

Definition modify_fs (f : gmap string node -> gmap string node) : M unit :=
  fun w => (Ok tt, mkWorld (f (fs w)) (VERBOSE w) (stderr w) (procs w)).

(** [for x in l: body(x)] *)
Fixpoint for_each {A : Type} (l : list A) (body : A -> M unit) : M unit :=
  match l with
  | [] => mret tt
  | x :: l' => body x ;; for_each l' body
  end.

(** ** pipes.quote and shelljoin (lines 30-31) *)

Definition dquote : string := String (ascii_of_nat 34) EmptyString.

Definition safechar (c : ascii) : bool :=
  in_range 97 122 c || in_range 65 90 c || in_range 48 57 c
  || existsb (Ascii.eqb c) (list_ascii_of_string "@%_-+=:,./").

(** [file.replace]: every single quote becomes a closing quote, a
    double-quoted single quote and an opening quote. *)
Fixpoint escape_squotes (s : string) : string :=
  match s with
  | EmptyString => EmptyString
  | String c s' =>
      if Ascii.eqb c "'"%char
      then "'" +:+ dquote +:+ "'" +:+ dquote +:+ "'" +:+ escape_squotes s'
      else String c (escape_squotes s')
  end.

Definition quote (file : string) : string :=
  if all safechar file
  then (if String.eqb file "" then "''" else file)
  else "'" +:+ escape_squotes file +:+ "'".

Definition shelljoin (args : list string) : string :=
  String.concat " " (map quote args).

(** ** The script's functions *)

Record Config : Type := mkConfig {
  cc : string;
  cflags : string;
  objcopy : string;
  objdump : string;
  ar : string;
  nm : string;
  ranlib : string;
  verbose : bool;
  localize_hidden : bool;
  keep_global_regex : regex;
  is_final_link : bool;
  output : string;
  archives : list string
}.

Section Script.

Variable E : Env.

(** Lines 34-35. *)
Definition echo_err (s : string) : M unit :=
  fun w => (Ok tt, mkWorld (fs w) (VERBOSE w) (stderr w ++ [s]) (procs w)).

(** [subprocess.check_call(args)]: run the child to its end; a non-zero
    exit status raises. *)
Definition check_call (args : list string) : M unit :=
  fun w =>
    let (returncode, fs') := child E args (fs w) in
    let w' := mkWorld fs' (VERBOSE w) (stderr w) (procs w ++ [(args, returncode)]) in
    if (returncode =? 0)%Z then (Ok tt, w')
    else (Raise (CalledProcessError returncode args), w').

(** Lines 38-41. *)
Definition run (args : list string) : M unit :=
  fun w =>
    ((if VERBOSE w then echo_err ("+ " +:+ shelljoin args) else mret tt) ;;
     check_call args) w.

(** [subprocess.Popen(cmd, stdout=PIPE)] up to [process.wait()]: the
    text the child prints and its exit status. *)
Definition popen (cmd : list string) : M (string * Z) :=
  fun w =>
    let (text, returncode) := child_stdout E cmd (fs w) in
    (Ok (text, returncode),
     mkWorld (fs w) (VERBOSE w) (stderr w) (procs w ++ [(cmd, returncode)])).

(** Lines 44-66.  The generator is given with the body of the loop that
    consumes it: the body runs at each [yield], the exit status is looked
    at once the lines are used up. *)
Definition iter_hidden_symbols (objdump_path object_file : string)
    (body : string -> M unit) : M unit :=
  let cmd := [objdump_path; "-t"; object_file] in
  '(text, returncode) ← popen cmd;
  for_each (hidden_symbols text) body ;;
  if negb (returncode =? 0)%Z
  then raise (CalledProcessError returncode cmd)
  else mret tt.

(** Lines 69-89. *)
Definition iter_global_symbols (nm_path object_file : string)
    (body : string -> M unit) : M unit :=
  let cmd := [nm_path; "--defined-only"; "--extern-only"; "--print-file-name";
              object_file] in
  '(text, returncode) ← popen cmd;
  for_each (global_symbols text) body ;;
  if negb (returncode =? 0)%Z
  then raise (CalledProcessError returncode cmd)
  else mret tt.

(** [open(path, 'wb')]: the file is created or emptied. *)
Definition open_wb (path : string) : M unit :=
  modify_fs (insert path (File "")).

(** [f.write(data)] on the file opened at [path]. *)
Definition write (path data : string) : M unit :=
  modify_fs (alter (fun n => match n with
                             | File d => File (d +:+ data)
                             | Dir => Dir
                             end) path).

(** [tempfile.mkdtemp(suffix)] *)
Definition mkdtemp (suffix : string) : M string :=
  fun w =>
    let d := mkdtemp_name E suffix (fs w) in
    (Ok d, mkWorld (<[d := Dir]> (fs w)) (VERBOSE w) (stderr w) (procs w)).

(** Lines 106-108. *)
Definition set_verbose (c : Config) : M unit :=
  fun w =>
    (Ok tt, mkWorld (fs w) (if verbose c then true else VERBOSE w) (stderr w) (procs w)).

(** Lines 110-111. *)
Definition output_archive_name (c : Config) : string := snd (split (output c)).
Definition output_archive_name_wo_ext (c : Config) : string :=
  fst (splitext (output_archive_name c)).

(** Lines 114-117. *)
Definition partial_link_path (c : Config) (temp_dir : string) : string :=
  join temp_dir (output_archive_name_wo_ext c +:+ ".o").
Definition symbol_list_path (c : Config) (temp_dir : string) : string :=
  join temp_dir (output_archive_name_wo_ext c +:+ ".locals").

(** Lines 119-132. *)
Definition link_command (c : Config) (temp_dir : string) : list string :=
  [cc c]
  ++ shlex_split E (cflags c)
  ++ ["-nostartfiles";
      "-nodefaultlibs";
      "-Wl,--build-id=none";
      if is_final_link c then "-Wl,-Ur" else "-Wl,-r";
      "-Wl,--whole-archive"]
  ++ archives c
  ++ ["-Wl,--no-whole-archive";
      "-o"; partial_link_path c temp_dir].

(** Lines 135-143: the [with] block that writes the symbol list. *)
Definition write_symbol_list (c : Config) (temp_dir : string) : M unit :=
  let f := symbol_list_path c temp_dir in
  open_wb f ;;
  (if localize_hidden c
   then iter_hidden_symbols (objdump c) (partial_link_path c temp_dir)
          (fun symbol => write f (symbol +:+ nl))
   else mret tt) ;;
  iter_global_symbols (nm c) (partial_link_path c temp_dir)
    (fun symbol =>
       match re_search (keep_global_regex c) symbol with
       | Some _ => mret tt
       | None => write f (symbol +:+ nl)
       end).

(** Lines 106-147: everything [main] does before the move. *)
Definition build (c : Config) : M string :=
  set_verbose c ;;
  temp_dir ← mkdtemp ("_" +:+ output_archive_name_wo_ext c);
  run (link_command c temp_dir) ;;
  write_symbol_list c temp_dir ;;
  run [objcopy c; "--localize-symbols"; symbol_list_path c temp_dir;
       partial_link_path c temp_dir] ;;
  run [ar c; "cr"; join temp_dir (output_archive_name c);
       partial_link_path c temp_dir] ;;
  run [ranlib c; join temp_dir (output_archive_name c)] ;;
  mret temp_dir.

(** Lines 148-149. *)
Definition publish (c : Config) (temp_dir : string) : M unit :=
  run ["mv"; join temp_dir (output_archive_name c); output c] ;;
  run ["rm"; "-fr"; temp_dir].

(** Lines 92-149. *)
Definition main (c : Config) : M unit :=
  temp_dir ← build c;
  publish c temp_dir.

End Script.

(** ** Views of the symbol list *)

(** [symbol] is a non-empty run of word characters and the line ends
    with it, up to the line's newline. *)
Definition trailing_token (line symbol : string) : Prop :=
  symbol <> "" /\ all is_word symbol = true
  /\ exists pre eol, line = pre +:+ symbol +:+ eol /\ at_eol eol = true.

(** The same after [.hidden ] and a space. *)
Definition hidden_token (line symbol : string) : Prop :=
  symbol <> "" /\ all is_word symbol = true
  /\ exists pre eol, line = pre +:+ ".hidden " +:+ symbol +:+ eol /\ at_eol eol = true.

(** The test of line 141. *)
Definition kept_global (c : Config) (symbol : string) : bool :=
  match re_search (keep_global_regex c) symbol with
  | Some _ => true
  | None => false
  end.

(** The names lines 136-138 write, given the text [objdump] printed. *)
Definition hidden_pass (c : Config) (objdump_text : string) : list string :=
  if localize_hidden c then hidden_symbols objdump_text else [].

(** The names lines 140-143 write, given the text [nm] printed. *)
Definition global_pass (c : Config) (nm_text : string) : list string :=
  List.filter (fun symbol => negb (kept_global c symbol)) (global_symbols nm_text).

(** The content of the symbol list file: one name per line. *)
Fixpoint render (names : list string) : string :=
  match names with
  | [] => EmptyString
  | symbol :: names' => (symbol +:+ nl) +:+ render names'
  end.

(** The two children of [write_symbol_list] as the world answers them:
    [objdump] is started when the symbol list file has just been opened,
    [nm] when the names of the first loop are in it. *)
Definition objdump_cmd (c : Config) (temp_dir : string) : list string :=
  [objdump c; "-t"; partial_link_path c temp_dir].

Definition nm_cmd (c : Config) (temp_dir : string) : list string :=
  [nm c; "--defined-only"; "--extern-only"; "--print-file-name";
   partial_link_path c temp_dir].

Definition objdump_answer (E : Env) (c : Config) (temp_dir : string) (w : World)
  : string * Z :=
  child_stdout E (objdump_cmd c temp_dir)
    (<[symbol_list_path c temp_dir := File ""]> (fs w)).

Definition nm_answer (E : Env) (c : Config) (temp_dir : string) (w : World)
  : string * Z :=
  child_stdout E (nm_cmd c temp_dir)
    (<[symbol_list_path c temp_dir :=
         File (render (hidden_pass c (objdump_answer E c temp_dir w).1))]> (fs w)).

(** The directory [main] works in, as [tempfile.mkdtemp] names it. *)
Definition temp_dir_of (E : Env) (c : Config) (w : World) : string :=
  mkdtemp_name E ("_" +:+ output_archive_name_wo_ext c) (fs w).

(** ** What a computation does to the world *)

(** The computation leaves the file at [p] as it is. *)
Definition keeps {A : Type} (p : string) (m : M A) (w : World) : Prop :=
  fs (m w).2 !! p = fs w !! p.

(** The children a computation ran, with their exit statuses. *)
Definition spawned {A : Type} (m : M A) (w : World) : list (list string * Z) :=
  drop (length (procs w)) (procs (m w).2).

(** A computation appends to the log, and when it raises, one of the
    children it ran exited with a non-zero status. *)
Definition logs {A : Type} (m : M A) (w : World) : Prop :=
  exists l, procs (m w).2 = (procs w ++ l)%list
            /\ (forall e, (m w).1 = Raise e -> Exists (fun pc => pc.2 <> 0%Z) l).

(** No slash in a name. *)
Definition no_slash (s : string) : bool := all (fun c => negb (is_slash c)) s.

(** ** The exclusion pattern in the words of the specification

    The specification writes the pattern of line 58 as the wildcard
    [__*get_pc_thunk*]: a star stands for any text, the pattern covers
    the whole name. *)

Inductive glob_item : Type :=
| GlobChar (c : ascii)
| GlobStar.

Fixpoint glob_of_string (s : string) : list glob_item :=
  match s with
  | EmptyString => []
  | String c s' =>
      (if Ascii.eqb c "*"%char then GlobStar else GlobChar c) :: glob_of_string s'
  end.

Fixpoint glob_match (p : list glob_item) : string -> bool :=
  match p with
  | [] => fun s => match s with EmptyString => true | _ => false end
  | GlobChar c :: p' =>
      fun s => match s with
               | String c' s' => Ascii.eqb c c' && glob_match p' s'
               | EmptyString => false
               end
  | GlobStar :: p' =>
      fix skip (s : string) : bool :=
        glob_match p' s
        || match s with
           | String _ s' => skip s'
           | EmptyString => false
           end
  end.

Definition spec_thunk_glob : list glob_item := glob_of_string "__*get_pc_thunk*".

(** ** What is assumed of the external programs *)


(** The four tools run before the move change no file but the one they
    are asked to produce: the link driver the file named after [-o], the
    binary editor the object it edits in place, the archiver and the
    indexer the archive. *)
Record writes_own_output (E : Env) (c : Config) : Prop := {
  link_writes : forall flags out f p, p <> out ->
    (child E (cc c :: flags ++ ["-o"; out]) f).2 !! p = f !! p;
  objcopy_writes : forall l o f p, p <> o ->
    (child E [objcopy c; "--localize-symbols"; l; o] f).2 !! p = f !! p;
  ar_writes : forall a o f p, p <> a ->
    (child E [ar c; "cr"; a; o] f).2 !! p = f !! p;
  ranlib_writes : forall a f p, p <> a ->
    (child E [ranlib c; a] f).2 !! p = f !! p
}.


(** ** A small world to run the script in *)

Module Demo.

(** The file named after the last [-o] of a link command. *)
Definition output_arg (args : list string) : option string :=
  match rev args with
  | out :: flag :: _ => if String.eqb flag "-o" then Some out else None
  | _ => None
  end.

(** Programs that behave as the toolchain is expected to; the program
    called [broken], if any, exits with status 1 and does nothing. *)
Definition child (broken : string) (cmd : list string) (f : gmap string node)
  : Z * gmap string node :=
  match cmd with
  | [] => (127%Z, f)
  | prog :: args =>
      if String.eqb prog broken then (1%Z, f)
      else if String.eqb prog "cc" then
        match output_arg args with
        | Some out => (0%Z, <[out := File "ELF"]> f)
        | None => (1%Z, f)
        end
      else if String.eqb prog "objcopy" then
        match args with
        | [_; l; o] =>
            match f !! l, f !! o with
            | Some (File names), Some (File d) =>
                (0%Z, <[o := File (d +:+ " local:" +:+ names)]> f)
            | _, _ => (1%Z, f)
            end
        | _ => (1%Z, f)
        end
      else if String.eqb prog "ar" then
        match args with
        | [_; a; o] =>
            match f !! o with
            | Some (File d) => (0%Z, <[a := File ("!<arch> " +:+ d)]> f)
            | _ => (1%Z, f)
            end
        | _ => (1%Z, f)
        end
      else if String.eqb prog "ranlib" then
        match args with
        | [a] =>
            match f !! a with
            | Some (File d) => (0%Z, <[a := File (d +:+ " indexed")]> f)
            | _ => (1%Z, f)
            end
        | _ => (1%Z, f)
        end
      else if String.eqb prog "mv" then
        match args with
        | [a; b] =>
            match f !! a, f !! b with
            | Some n, None | Some n, Some (File _) => (0%Z, <[b := n]> (delete a f))
            | _, _ => (1%Z, f)
            end
        | _ => (1%Z, f)
        end
      else if String.eqb prog "rm" then
        match args with
        | [_; d] => (0%Z, filter (fun kv => String.prefix d kv.1 = false) f)
        | _ => (1%Z, f)
        end
      else (127%Z, f)
  end.

(** [objdump -t] and [nm] print fixed texts. *)
Definition child_stdout (broken objdump_text nm_text : string)
    (cmd : list string) (f : gmap string node) : string * Z :=
  match cmd with
  | [] => (EmptyString, 127%Z)
  | prog :: _ =>
      if String.eqb prog broken then (EmptyString, 1%Z)
      else if String.eqb prog "objdump" then (objdump_text, 0%Z)
      else if String.eqb prog "nm" then (nm_text, 0%Z)
      else (EmptyString, 127%Z)
  end.

Definition env (broken objdump_text nm_text : string) : Env :=
  mkEnv String.words
        (fun suffix _ => "/tmp/tmpk3" +:+ suffix)
        (child broken)
        (child_stdout broken objdump_text nm_text).

Definition config (hidden : bool) (keep : regex) : Config :=
  mkConfig "cc" "-O2 -fPIC" "objcopy" "objdump" "ar" "nm" "ranlib"
           false hidden keep false
           "/out/libdispatch.a" ["/in/liba.a"; "/in/libb.a"].

Definition world : World :=
  mkWorld {[ "/out/libdispatch.a" := File "old" ]} false [] [].

Definition objdump_text : string :=
  "0000000000000000 g     F .text  0000000000000005 .hidden my_api_init" +:+ nl
  +:+ "0000000000000010 g     F .text  0000000000000005 .hidden __x86_get_pc_thunk_bx" +:+ nl
  +:+ "0000000000000020 g     F .text  0000000000000005 internal_helper" +:+ nl.

Definition nm_text : string :=
  "/tmp/x.o:0000000000000000 T my_api_init" +:+ nl
  +:+ "/tmp/x.o:0000000000000020 T internal_helper" +:+ nl
  +:+ "/tmp/x.o:0000000000000030 T internal_helper" +:+ nl.

(** [^my_api_] *)
Definition keep_my_api : regex := Seq Bol (Lit "my_api_").

(** A line of [objdump -t] for a hidden symbol that has [get_pc_thunk]
    in its name but not [__] at its start. *)
Definition thunk_like_line : string :=
  "0000000000000010 g     F .text  0000000000000005 .hidden x__get_pc_thunk_bx"
  +:+ nl.

(** A toolchain that works, and one whose archiver fails. *)
Definition works : Env := env "" objdump_text nm_text.
Definition ar_fails : Env := env "ar" objdump_text nm_text.

Definition conf : Config := config true keep_my_api.
Definition temp_dir : string := "/tmp/tmpk3_libdispatch".

(** Another run: other tools, other paths, another world, the same two
    policy inputs and the same texts from [objdump] and [nm]. *)
Definition conf' : Config :=
  mkConfig "gcc" "" "llvm-objcopy" "objdump" "llvm-ar" "nm" "llvm-ranlib"
           true true keep_my_api true
           "/srv/libother.a" ["/in/libc.a"].

Definition world' : World :=
  mkWorld {[ "/srv/readme" := File "text" ]} true ["+ make"] [(["make"], 0%Z)].

(** The first configuration, asking for [verbose]. *)
Definition conf_verbose : Config :=
  mkConfig "cc" "-O2 -fPIC" "objcopy" "objdump" "ar" "nm" "ranlib"
           true true keep_my_api false
           "/out/libdispatch.a" ["/in/liba.a"; "/in/libb.a"].

(** [objdump -t] output with the line above added. *)
Definition thunk_dump : string := objdump_text +:+ thunk_like_line.

Definition with_thunk_like : Env := env "" thunk_dump nm_text.




(** The scenarios of the specification: two global symbols [foo] and
    [bar], nothing hidden. *)
Definition two_globals : Env :=
  env "" "" ("a.o:0000 T foo" +:+ nl +:+ "b.o:0000 T bar" +:+ nl).

(** The symbol list a configuration gives in the small world. *)
Definition symbol_list_of (E : Env) (c : Config) : option node :=
  fs (write_symbol_list E c temp_dir world).2 !! symbol_list_path c temp_dir.

End Demo.


(** ** The command line (lines 152-197) *)

(** What an [argparse.Action] keeps of the two keywords [EnvDefault]
    touches. *)
Record Action : Type := mkAction {
  act_default : option string;
  act_required : bool
}.

(** Lines 155-161, [EnvDefault.__init__]: a variable of the environment,
    when it is named and set, replaces the default; an option that has a
    default is not required. *)
Definition EnvDefault_init (environ : gmap string string) (envvar : string)
    (required : bool) (default : option string) : Action :=
  let default :=
    if negb (String.eqb envvar "")
    then match environ !! envvar with
         | Some v => Some v
         | None => default
         end
    else default in
  let required :=
    if required
    then match default with Some _ => false | None => true end
    else false in
  mkAction default required.

(** Lines 179-195: the options declared with [action=EnvDefault], each
    with its [dest], its [envvar] and its [default]; [required] is left
    to its default, [True]. *)
Definition toolchain_options : list (string * string * string) :=
  [("cc", "CC", "cc");
   ("cflags", "CFLAGS", "");
   ("objcopy", "OBJCOPY", "objcopy");
   ("objdump", "OBJDUMP", "objdump");
   ("ar", "AR", "ar");
   ("nm", "NM", "nm");
   ("ranlib", "RANLIB", "ranlib")].

Definition toolchain_actions (environ : gmap string string) : list (string * Action) :=
  map (fun '(dest, envvar, default) =>
         (dest, EnvDefault_init environ envvar true (Some default)))
      toolchain_options.

(** ** Reading an echoed line back

    How a POSIX shell cuts a line into words, as far as the lines of
    [shelljoin] go: words are separated by spaces; inside single quotes
    and inside double quotes every other character stands for itself. *)

Inductive sh_mode : Type :=
| ShOut       (* between words *)
| ShBare      (* in a word, outside quotes *)
| ShSingle    (* inside single quotes *)
| ShDouble.   (* inside double quotes *)

Definition is_squote (c : ascii) : bool := Ascii.eqb c "'"%char.
Definition is_dquote (c : ascii) : bool := Ascii.eqb c (ascii_of_nat 34).
Definition is_blank (c : ascii) : bool := Ascii.eqb c " "%char.

Definition snoc (s : string) (c : ascii) : string := s +:+ String c EmptyString.

Fixpoint sh_go (m : sh_mode) (cur : string) (s : string) : option (list string) :=
  match s with
  | EmptyString =>
      match m with
      | ShOut => Some []
      | ShBare => Some [cur]
      | ShSingle | ShDouble => None
      end
  | String c s' =>
      match m with
      | ShOut =>
          if is_squote c then sh_go ShSingle cur s'
          else if is_dquote c then sh_go ShDouble cur s'
          else if is_blank c then sh_go ShOut EmptyString s'
          else sh_go ShBare (snoc cur c) s'
      | ShBare =>
          if is_squote c then sh_go ShSingle cur s'
          else if is_dquote c then sh_go ShDouble cur s'
          else if is_blank c then
            match sh_go ShOut EmptyString s' with
            | Some l => Some (cur :: l)
            | None => None
            end
          else sh_go ShBare (snoc cur c) s'
      | ShSingle =>
          if is_squote c then sh_go ShBare cur s' else sh_go ShSingle (snoc cur c) s'
      | ShDouble =>
          if is_dquote c then sh_go ShBare cur s' else sh_go ShDouble (snoc cur c) s'
      end
  end.

Definition sh_words (line : string) : option (list string) :=
  sh_go ShOut EmptyString line.

(** ** More views of a run *)

(** The line [run] echoes for a command. *)
Definition echo_line (args : list string) : string := "+ " +:+ shelljoin args.

(** The text ends where a line ends: it is empty or its last character
    is a newline. *)
Definition ends_line (text : string) : bool :=
  match Str.last_char None text with
  | Some c => is_newline c
  | None => true
  end.

(** The log of a computation: every child but the last exited with
    status zero, and the computation raises exactly when the last one
    did not, with that child's status and command. *)
Definition stops_at_first_failure {A : Type} (m : M A) (w : World) : Prop :=
  exists l, procs (m w).2 = (procs w ++ l)%list
    /\ match (m w).1 with
       | Ok _ => Forall (fun pc => pc.2 = 0%Z) l
       | Raise e =>
           exists l0 cmd code,
             l = (l0 ++ [(cmd, code)])%list
             /\ Forall (fun pc => pc.2 = 0%Z) l0
             /\ code <> 0%Z /\ e = CalledProcessError code cmd
       end.

(** A computation leaves [VERBOSE] as it is and, when it is off, prints
    nothing on the diagnostic stream. *)
Definition echoes_only_if_verbose {A : Type} (m : M A) (w : World) : Prop :=
  VERBOSE (m w).2 = VERBOSE w
  /\ (VERBOSE w = false -> stderr (m w).2 = stderr w).

(** When the computation returns normally, it has started exactly the
    children [cmds], all with status zero, and echoed exactly the
    commands [echoed] if [VERBOSE] is on. *)
Definition runs_exactly {A : Type} (m : M A) (w : World)
    (cmds echoed : list (list string)) : Prop :=
  (exists a, (m w).1 = Ok a) ->
  procs (m w).2 = (procs w ++ map (fun cmd => (cmd, 0%Z)) cmds)%list
  /\ VERBOSE (m w).2 = VERBOSE w
  /\ stderr (m w).2
     = (stderr w ++ (if VERBOSE w then map (fun cmd => "+ " +:+ shelljoin cmd) echoed
                     else []))%list.

(** The commands of a run, in the order of lines 133-149. *)
Definition run_commands (E : Env) (c : Config) (t : string) : list (list string) :=
  [link_command E c t;
   [objcopy c; "--localize-symbols"; symbol_list_path c t; partial_link_path c t];
   [ar c; "cr"; join t (output_archive_name c); partial_link_path c t];
   [ranlib c; join t (output_archive_name c)];
   ["mv"; join t (output_archive_name c); output c];
   ["rm"; "-fr"; t]].

Definition all_children (E : Env) (c : Config) (t : string) : list (list string) :=
  [link_command E c t]
  ++ (if localize_hidden c then [objdump_cmd c t] else [])
  ++ [nm_cmd c t;
      [objcopy c; "--localize-symbols"; symbol_list_path c t; partial_link_path c t];
      [ar c; "cr"; join t (output_archive_name c); partial_link_path c t];
      [ranlib c; join t (output_archive_name c)];
      ["mv"; join t (output_archive_name c); output c];
      ["rm"; "-fr"; t]].

(** * Proofs *)

(** ** Concatenation of strings

    Facts the Standard Library and stdpp do not state for [string]. *)

Module StrFacts.
Import Str.

Lemma app_cons (c : ascii) (s t : string) : String c s +:+ t = String c (s +:+ t).
Proof. reflexivity. Qed.

Lemma app_nil_r (s : string) : s +:+ "" = s.
Proof. induction s as [|c s IH]; [reflexivity|]. rewrite app_cons, IH. reflexivity. Qed.

Lemma app_assoc (s t u : string) : (s +:+ t) +:+ u = s +:+ t +:+ u.
Proof. induction s as [|c s IH]; [reflexivity|]. rewrite !app_cons, IH. reflexivity. Qed.

Lemma length_app (s t : string) :
  String.length (s +:+ t) = (String.length s + String.length t)%nat.
Proof. induction s as [|c s IH]; [reflexivity|]. rewrite app_cons. simpl. rewrite IH. reflexivity. Qed.

Lemma all_app (p : ascii -> bool) (s t : string) :
  all p (s +:+ t) = all p s && all p t.
Proof.
  induction s as [|c s IH]; [reflexivity|].
  rewrite app_cons. simpl. rewrite IH, andb_assoc. reflexivity.
Qed.

Lemma last_char_app (prev : option ascii) (a b : string) :
  last_char prev (a +:+ b) = last_char (last_char prev a) b.
Proof. revert prev. induction a as [|c a IH]; intros prev; [reflexivity|]. rewrite app_cons. simpl. apply IH. Qed.

End StrFacts.

(** ** What the engine does on the shapes the three patterns have *)

Module ReFacts.
Import Str StrFacts.

Lemma take_app (a b : string) : take (String.length a) (a +:+ b) = a.
Proof. induction a as [|c a IH]; [destruct b; reflexivity|]. rewrite app_cons. simpl. rewrite IH. reflexivity. Qed.

Lemma consumed_app (a b : string) : consumed (a +:+ b) b = a.
Proof.
  unfold consumed. rewrite length_app.
  replace (String.length a + String.length b - String.length b)%nat with (String.length a) by lia.
  apply take_app.
Qed.

(** A literal consumes exactly itself. *)
Lemma match_Lit_app (l : string) prev s k g :
  match_at (Lit l) prev (l +:+ s) k g = k (last_char prev l) s g.
Proof.
  revert prev. induction l as [|c l IH]; intros prev; [reflexivity|].
  rewrite app_cons. simpl. rewrite Ascii.eqb_refl. apply IH.
Qed.

Lemma match_Lit_inv (l : string) prev s k g x :
  match_at (Lit l) prev s k g = Some x ->
  exists s', s = l +:+ s' /\ k (last_char prev l) s' g = Some x.
Proof.
  revert prev s. induction l as [|c l IH]; intros prev s H.
  - exists s. split; [reflexivity|exact H].
  - simpl in H. destruct s as [|c' s]; [discriminate|].
    destruct (Ascii.eqb c c') eqn:E; [|discriminate].
    apply Ascii.eqb_eq in E. subst c'.
    apply IH in H. destruct H as (s' & -> & H).
    exists s'. split; [reflexivity|exact H].
Qed.

(** A starred class consumes some stretch of characters of the class: every
    result comes from one such split, and any split the continuation
    accepts makes the repetition succeed. *)
Lemma star_loop_S (body : matcher) n prev s k g :
  star_loop body (S n) prev s k g =
  match body prev s
          (fun prev' s' g' =>
             if (String.length s' <? String.length s)%nat
             then star_loop body n prev' s' k g' else None) g with
  | Some g' => Some g'
  | None => k prev s g
  end.
Proof. reflexivity. Qed.

Lemma match_Cls_cons (cs : cset) prev c s k g :
  match_at (Cls cs) prev (String c s) k g = if in_cset cs c then k (Some c) s g else None.
Proof. reflexivity. Qed.

Lemma shorter (c : ascii) (s : string) :
  (String.length s <? String.length (String c s))%nat = true.
Proof. apply Nat.ltb_lt. simpl. lia. Qed.

Lemma star_cls_inv (cs : cset) n prev s k g x :
  star_loop (match_at (Cls cs)) n prev s k g = Some x ->
  exists a b, s = a +:+ b /\ all (in_cset cs) a = true
              /\ k (last_char prev a) b g = Some x.
Proof.
  revert prev s. induction n as [|n IH]; intros prev s H.
  - exists "", s. repeat split. exact H.
  - rewrite star_loop_S in H.
    destruct s as [|c s]; [exists "", ""; repeat split; exact H|].
    rewrite match_Cls_cons in H.
    destruct (in_cset cs c) eqn:Ec; [|exists "", (String c s); repeat split; exact H].
    rewrite shorter in H.
    destruct (star_loop (match_at (Cls cs)) n (Some c) s k g) as [y|] eqn:Es.
    + injection H as <-. apply IH in Es. destruct Es as (a & b & -> & Ha & Hk).
      exists (String c a), b. repeat split; [simpl; rewrite Ec; exact Ha|exact Hk].
    + exists "", (String c s). repeat split. exact H.
Qed.

Lemma star_cls_app (cs : cset) n prev a b k g :
  all (in_cset cs) a = true -> (String.length a <= n)%nat ->
  k (last_char prev a) b g <> None ->
  star_loop (match_at (Cls cs)) n prev (a +:+ b) k g <> None.
Proof.
  revert n prev. induction a as [|c a IH]; intros n prev Ha Hn Hk.
  - change ("" +:+ b) with b. destruct n as [|n]; [exact Hk|].
    rewrite star_loop_S. destruct (match_at (Cls cs) prev b _ g); [discriminate|exact Hk].
  - simpl in Ha. apply andb_true_iff in Ha as [Hc Ha].
    destruct n as [|n]; [simpl in Hn; lia|].
    rewrite app_cons, star_loop_S, match_Cls_cons, Hc, shorter.
    destruct (star_loop (match_at (Cls cs)) n (Some c) (a +:+ b) k g) eqn:Es; [discriminate|].
    exfalso. revert Es. apply IH; [exact Ha|simpl in Hn; lia|exact Hk].
Qed.

(** One or more characters of a class, captured as group [n]. *)
Lemma match_group_plus_inv (n : nat) (cs : cset) prev s k g x :
  match_at (Group n (Plus (Cls cs))) prev s k g = Some x ->
  exists a b, s = a +:+ b /\ a <> "" /\ all (in_cset cs) a = true
              /\ k (last_char prev a) b ((n, a) :: g) = Some x.
Proof.
  intros H. change (match_at (Group n (Plus (Cls cs))) prev s k g) with
    (match_at (Cls cs) prev s
       (fun p1 s1 g1 =>
          star_loop (match_at (Cls cs)) (S (String.length s1)) p1 s1
            (fun p2 s2 g2 => k p2 s2 ((n, consumed s s2) :: g2)) g1) g) in H.
  destruct s as [|c s]; [discriminate|].
  rewrite match_Cls_cons in H. destruct (in_cset cs c) eqn:Ec; [|discriminate].
  apply star_cls_inv in H. destruct H as (a & b & -> & Ha & Hk).
  exists (String c a), b.
  rewrite <- app_cons, consumed_app in Hk.
  repeat split; [discriminate|simpl; rewrite Ec; exact Ha|exact Hk].
Qed.

Lemma match_group_plus_app (n : nat) (cs : cset) prev a b k g :
  a <> "" -> all (in_cset cs) a = true ->
  k (last_char prev a) b ((n, a) :: g) <> None ->
  match_at (Group n (Plus (Cls cs))) prev (a +:+ b) k g <> None.
Proof.
  intros Hne Ha Hk. destruct a as [|c a]; [congruence|].
  simpl in Ha. apply andb_true_iff in Ha as [Hc Ha].
  change (match_at (Group n (Plus (Cls cs))) prev (String c a +:+ b) k g) with
    (match_at (Cls cs) prev (String c (a +:+ b))
       (fun p1 s1 g1 =>
          star_loop (match_at (Cls cs)) (S (String.length s1)) p1 s1
            (fun p2 s2 g2 => k p2 s2 ((n, consumed (String c a +:+ b) s2) :: g2)) g1) g).
  rewrite match_Cls_cons, Hc.
  apply star_cls_app; [exact Ha|rewrite length_app; lia|].
  rewrite consumed_app. exact Hk.
Qed.

(** [re.search] returns a match of the pattern at some position, and
    finds one whenever some position has one. *)
Lemma search_from_inv (r : regex) prev s g :
  search_from r prev s = Some g ->
  exists pre s', s = pre +:+ s' /\ match_at r (last_char prev pre) s' accept [] = Some g.
Proof.
  revert prev. induction s as [|c s IH]; intros prev H; simpl in H.
  - exists "", "". split; [reflexivity|].
    simpl. destruct (match_at r prev "" accept []); [exact H|discriminate].
  - destruct (match_at r prev (String c s) accept []) eqn:Er.
    + exists "", (String c s). split; [reflexivity|].
      change (last_char prev "") with prev. rewrite Er. exact H.
    + apply IH in H. destruct H as (pre & s' & -> & H).
      exists (String c pre), s'. split; [reflexivity|exact H].
Qed.

Lemma search_from_app (r : regex) prev pre s' :
  match_at r (last_char prev pre) s' accept [] <> None ->
  search_from r prev (pre +:+ s') <> None.
Proof.
  revert prev. induction pre as [|c pre IH]; intros prev H.
  - change ("" +:+ s') with s'. simpl in H.
    destruct s'; simpl; destruct (match_at r prev _ accept []); congruence.
  - rewrite app_cons. simpl.
    destruct (match_at r prev _ accept []); [discriminate|]. apply IH. exact H.
Qed.

End ReFacts.

(** ** The trailing token of a line *)

Module Tail.
Import Str StrFacts ReFacts.

(** Two ways to cut the same string overlap. *)
Lemma app_eq_cases (u v u' v' : string) :
  u +:+ v = u' +:+ v' ->
  (exists d, u' = u +:+ d /\ v = d +:+ v') \/ (exists d, u = u' +:+ d /\ v' = d +:+ v).
Proof.
  revert u'. induction u as [|c u IH]; intros u' H.
  - left. exists u'. split; [reflexivity|exact H].
  - destruct u' as [|c' u'].
    + right. exists (String c u). split; [reflexivity|]. symmetry. exact H.
    + rewrite !app_cons in H. injection H as -> H.
      destruct (IH _ H) as [(d & -> & ->)|(d & -> & ->)]; [left|right];
        exists d; split; reflexivity.
Qed.

(** A run of word characters ends where the text after it starts. *)
Lemma word_run_unique (a b a' b' : string) :
  a +:+ b = a' +:+ b' ->
  all is_word a = true -> all is_word a' = true ->
  at_eol b = true -> at_eol b' = true ->
  a = a' /\ b = b'.
Proof.
  assert (Hnw : forall c t, at_eol (String c t) = true -> is_word c = false).
  { intros c [|? ?] Hc; simpl in Hc; [|discriminate].
    unfold is_newline in Hc. apply Nat.eqb_eq in Hc.
    rewrite <- (ascii_nat_embedding c), Hc. reflexivity. }
  revert a'. induction a as [|c a IH]; intros a' H Ha Ha' Hb Hb'.
  - change ("" +:+ b) with b in H. destruct a' as [|c' a']; [split; [reflexivity|exact H]|].
    rewrite app_cons in H. subst b. simpl in Ha'. apply andb_true_iff in Ha' as [Hc' _].
    rewrite (Hnw _ _ Hb) in Hc'. discriminate.
  - simpl in Ha. apply andb_true_iff in Ha as [Hc Ha].
    destruct a' as [|c' a'].
    + change ("" +:+ b') with b' in H. rewrite app_cons in H. subst b'.
      rewrite (Hnw _ _ Hb') in Hc. discriminate.
    + rewrite !app_cons in H. injection H as -> H. simpl in Ha'.
      apply andb_true_iff in Ha' as [_ Ha'].
      destruct (IH _ H Ha Ha' Hb Hb') as [-> ->]. split; reflexivity.
Qed.

(** Inside [word* eol], a cut that follows a non-word character leaves
    nothing after it. *)
Lemma word_run_cut (a b d t : string) :
  a +:+ b = d +:+ t ->
  all is_word a = true -> at_eol b = true ->
  d <> "" -> word_before (last_char None d) = false ->
  t = "".
Proof.
  revert d. induction a as [|c a IH]; intros d H Ha Hb Hd Hw.
  - change ("" +:+ b) with b in H. subst b.
    destruct d as [|c d]; [congruence|]. rewrite app_cons in Hb.
    simpl in Hb. destruct (d +:+ t) eqn:E; [|discriminate].
    destruct d; [exact E|discriminate].
  - simpl in Ha. apply andb_true_iff in Ha as [Hc Ha].
    destruct d as [|c' d]; [congruence|].
    rewrite !app_cons in H. injection H as <- H.
    destruct d as [|c2 d]; [simpl in Hw; congruence|].
    apply (IH (String c2 d)); [exact H|exact Ha|exact Hb|discriminate|exact Hw].
Qed.

(** The token at the end of a line is unique: the same line cannot end
    in two different word tokens that both follow a non-word character
    (or the start of the line). *)
Lemma word_tail_unique (u a b u' a' b' : string) :
  u +:+ a +:+ b = u' +:+ a' +:+ b' ->
  a <> "" -> a' <> "" ->
  all is_word a = true -> all is_word a' = true ->
  at_eol b = true -> at_eol b' = true ->
  word_before (last_char None u) = false ->
  word_before (last_char None u') = false ->
  u = u' /\ a = a' /\ b = b'.
Proof.
  intros H Hne Hne' Ha Ha' Hb Hb' Hu Hu'.
  assert (Hnil : forall x y, x +:+ y = "" -> x = "").
  { intros [|? ?] y E; [reflexivity|discriminate]. }
  destruct (app_eq_cases _ _ _ _ H) as [(d & -> & E)|(d & -> & E)].
  - destruct d as [|c d].
    + rewrite app_nil_r. change ("" +:+ a' +:+ b') with (a' +:+ b') in E.
      destruct (word_run_unique _ _ _ _ E Ha Ha' Hb Hb') as [-> ->]. repeat split.
    + exfalso. apply Hne'. apply (Hnil a' b').
      apply (word_run_cut a b (String c d) (a' +:+ b') E Ha Hb); [discriminate|].
      rewrite last_char_app in Hu'. simpl in Hu'. simpl. exact Hu'.
  - destruct d as [|c d].
    + rewrite app_nil_r. change ("" +:+ a +:+ b) with (a +:+ b) in E.
      destruct (word_run_unique _ _ _ _ E Ha' Ha Hb' Hb) as [-> ->]. repeat split.
    + exfalso. apply Hne. apply (Hnil a b).
      apply (word_run_cut a' b' (String c d) (a +:+ b) E Ha' Hb'); [discriminate|].
      rewrite last_char_app in Hu. simpl in Hu. simpl. exact Hu.
Qed.

End Tail.

(** ** What the three patterns match *)

Module Patterns.
Import Str StrFacts ReFacts Tail.

(** [(\w+)$] at a position: some word characters up to the end of the
    line, captured. *)
Lemma word_eol_inv (n : nat) prev s g x :
  match_at (Seq (Group n (Plus (Cls Word))) Eol) prev s accept g = Some x ->
  exists a b, s = a +:+ b /\ a <> "" /\ all is_word a = true /\ at_eol b = true
              /\ x = (n, a) :: g.
Proof.
  intros H.
  change (match_at (Seq (Group n (Plus (Cls Word))) Eol) prev s accept g) with
    (match_at (Group n (Plus (Cls Word))) prev s
       (fun p' s' g' => if at_eol s' then accept p' s' g' else None) g) in H.
  apply match_group_plus_inv in H. destruct H as (a & b & -> & Hne & Ha & Hk).
  exists a, b. destruct (at_eol b); [|discriminate]. injection Hk as <-.
  repeat split; assumption.
Qed.

Lemma word_eol_app (n : nat) prev a b g :
  a <> "" -> all is_word a = true -> at_eol b = true ->
  match_at (Seq (Group n (Plus (Cls Word))) Eol) prev (a +:+ b) accept g <> None.
Proof.
  intros Hne Ha Hb.
  change (match_at (Seq (Group n (Plus (Cls Word))) Eol) prev (a +:+ b) accept g) with
    (match_at (Group n (Plus (Cls Word))) prev (a +:+ b)
       (fun p' s' g' => if at_eol s' then accept p' s' g' else None) g).
  apply match_group_plus_app; [exact Hne|exact Ha|]. rewrite Hb. discriminate.
Qed.

(** [\.hidden (\w+)$] *)
Lemma hidden_re_inv (line : string) (m : caps) :
  re_search hidden_re line = Some m ->
  exists pre sym b,
    line = pre +:+ ".hidden " +:+ sym +:+ b /\ sym <> "" /\ all is_word sym = true
    /\ at_eol b = true /\ m = [(1, sym)].
Proof.
  intros H. apply search_from_inv in H. destruct H as (pre & s' & -> & H).
  unfold hidden_re in H.
  change (match_at (Seq (Lit ".hidden ") ?r) ?p ?s ?k ?g) with
    (match_at (Lit ".hidden ") p s (fun p' s' g' => match_at r p' s' k g') g) in H.
  apply match_Lit_inv in H. destruct H as (s'' & -> & H).
  apply word_eol_inv in H. destruct H as (a & b & -> & Hne & Ha & Hb & ->).
  exists pre, a, b. repeat split; assumption.
Qed.

Lemma hidden_re_app (pre sym b : string) :
  sym <> "" -> all is_word sym = true -> at_eol b = true ->
  re_search hidden_re (pre +:+ ".hidden " +:+ sym +:+ b) = Some [(1, sym)].
Proof.
  intros Hne Ha Hb.
  destruct (re_search hidden_re (pre +:+ ".hidden " +:+ sym +:+ b)) as [m|] eqn:E.
  - destruct (hidden_re_inv _ _ E) as (pre' & sym' & b' & H & Hne' & Ha' & Hb' & ->).
    rewrite <- (app_assoc pre), <- (app_assoc pre') in H.
    destruct (word_tail_unique _ _ _ _ _ _ H) as (_ & -> & _);
      try assumption; try (rewrite last_char_app; reflexivity).
    reflexivity.
  - exfalso. revert E. apply search_from_app.
    unfold hidden_re.
    change (match_at (Seq (Lit ".hidden ") ?r) ?p ?s ?k ?g) with
      (match_at (Lit ".hidden ") p s (fun p' s' g' => match_at r p' s' k g') g).
    rewrite match_Lit_app. apply word_eol_app; assumption.
Qed.

(** [\b(\w+)$] *)
Lemma global_re_inv (line : string) (m : caps) :
  re_search global_re line = Some m ->
  exists pre sym b,
    line = pre +:+ sym +:+ b /\ sym <> "" /\ all is_word sym = true
    /\ at_eol b = true /\ word_before (last_char None pre) = false
    /\ m = [(1, sym)].
Proof.
  intros H. apply search_from_inv in H. destruct H as (pre & s' & -> & H).
  unfold global_re in H.
  change (match_at (Seq WordB ?r) ?p ?s ?k ?g) with
    (if xorb (word_before p) (word_after s) then match_at r p s k g else None) in H.
  destruct (xorb _ _) eqn:Ex; [|discriminate].
  apply word_eol_inv in H. destruct H as (a & b & -> & Hne & Ha & Hb & ->).
  exists pre, a, b. repeat split; try assumption.
  destruct a as [|c a]; [congruence|]. simpl in Ha. apply andb_true_iff in Ha as [Hc _].
  rewrite app_cons in Ex. simpl in Ex. rewrite Hc in Ex.
  destruct (word_before (last_char None pre)); [discriminate|reflexivity].
Qed.

Lemma global_re_app (pre sym b : string) :
  sym <> "" -> all is_word sym = true -> at_eol b = true ->
  word_before (last_char None pre) = false ->
  re_search global_re (pre +:+ sym +:+ b) = Some [(1, sym)].
Proof.
  intros Hne Ha Hb Hw.
  destruct (re_search global_re (pre +:+ sym +:+ b)) as [m|] eqn:E.
  - destruct (global_re_inv _ _ E) as (pre' & sym' & b' & H & Hne' & Ha' & Hb' & Hw' & ->).
    destruct (word_tail_unique _ _ _ _ _ _ H) as (_ & -> & _); try assumption.
    reflexivity.
  - exfalso. revert E. apply search_from_app.
    unfold global_re.
    change (match_at (Seq WordB ?r) ?p ?s ?k ?g) with
      (if xorb (word_before p) (word_after s) then match_at r p s k g else None).
    assert (Hx : word_after (sym +:+ b) = true).
    { destruct sym as [|c a]; [congruence|]. simpl in Ha.
      apply andb_true_iff in Ha as [Hc _]. exact Hc. }
    rewrite Hw, Hx. simpl xorb. cbv iota. apply word_eol_app; assumption.
Qed.

(** [__\S*get_pc_thunk] with [re.match] *)
Lemma thunk_re_inv (symbol : string) (m : caps) :
  re_match thunk_re symbol = Some m ->
  exists a b, symbol = "__" +:+ a +:+ "get_pc_thunk" +:+ b
              /\ all (in_cset NonSpace) a = true.
Proof.
  unfold re_match, thunk_re. intros H.
  change (match_at (Seq (Lit "__") ?r) ?p ?s ?k ?g) with
    (match_at (Lit "__") p s (fun p' s' g' => match_at r p' s' k g') g) in H.
  apply match_Lit_inv in H. destruct H as (s' & -> & H).
  change (match_at (Seq (Star (Cls NonSpace)) ?r) ?p ?s ?k ?g) with
    (star_loop (match_at (Cls NonSpace)) (S (String.length s)) p s
       (fun p' s' g' => match_at r p' s' k g') g) in H.
  apply star_cls_inv in H. destruct H as (a & t & -> & Ha & H).
  apply match_Lit_inv in H. destruct H as (b & -> & _).
  exists a, b. split; [reflexivity|exact Ha].
Qed.

Lemma thunk_re_app (a b : string) :
  all (in_cset NonSpace) a = true ->
  re_match thunk_re ("__" +:+ a +:+ "get_pc_thunk" +:+ b) <> None.
Proof.
  intros Ha. unfold re_match, thunk_re.
  change (match_at (Seq (Lit "__") ?r) ?p ?s ?k ?g) with
    (match_at (Lit "__") p s (fun p' s' g' => match_at r p' s' k g') g).
  rewrite match_Lit_app.
  change (match_at (Seq (Star (Cls NonSpace)) ?r) ?p ?s ?k ?g) with
    (star_loop (match_at (Cls NonSpace)) (S (String.length s)) p s
       (fun p' s' g' => match_at r p' s' k g') g).
  apply star_cls_app; [exact Ha|rewrite length_app; lia|].
  rewrite match_Lit_app. discriminate.
Qed.

End Patterns.

(** ** Paths in the working directory *)

Module PathFacts.
Import Str StrFacts.

Lemma prefix_app (d x : string) : String.prefix d (d +:+ x) = true.
Proof.
  induction d as [|c d IH]; [destruct x; reflexivity|].
  rewrite app_cons. simpl. destruct (ascii_dec c c); [exact IH|congruence].
Qed.

Lemma prefix_self (d : string) : String.prefix d d = true.
Proof. rewrite <- (app_nil_r d) at 2. apply prefix_app. Qed.

Lemma join_prefix (d x : string) :
  starts_with_slash x = false -> String.prefix d (join d x) = true.
Proof.
  intros Hx. unfold join. rewrite Hx.
  destruct (String.eqb d "" || ends_with_slash d); apply prefix_app.
Qed.

Lemma cut_last_slash_tail (p : string) : no_slash (cut_last_slash p).2 = true.
Proof.
  induction p as [|c p IH]; [reflexivity|].
  simpl. destruct (cut_last_slash p) as [h t]. simpl in IH.
  destruct (is_slash c) eqn:Ec; [exact IH|].
  destruct h; simpl; [|exact IH].
  unfold no_slash. simpl. rewrite Ec. exact IH.
Qed.

Lemma split_tail (p : string) : no_slash (split p).2 = true.
Proof.
  unfold split. pose proof (cut_last_slash_tail p) as H.
  destruct (cut_last_slash p) as [h t]. simpl in H.
  destruct (negb (String.eqb h "") && negb (all is_slash h)); exact H.
Qed.

Lemma cut_last_dot_app (p r e : string) :
  cut_last_dot p = Some (r, e) -> p = r +:+ e.
Proof.
  revert r e. induction p as [|c p IH]; intros r e H; [discriminate|].
  simpl in H. destruct (cut_last_dot p) as [[r' e']|].
  - injection H as <- <-. rewrite app_cons, <- (IH r' e' eq_refl). reflexivity.
  - destruct (is_dot c); [|discriminate]. injection H as <- <-. reflexivity.
Qed.

Lemma cut_last_slash_app (p : string) :
  p = (cut_last_slash p).1 +:+ (cut_last_slash p).2.
Proof.
  induction p as [|c p IH]; [reflexivity|].
  simpl. destruct (cut_last_slash p) as [h t]. simpl in IH.
  destruct (is_slash c); [simpl; rewrite app_cons, <- IH; reflexivity|].
  destruct h; simpl.
  - change ("" +:+ String c t) with (String c ("" +:+ t)). rewrite <- IH. reflexivity.
  - rewrite app_cons, <- IH. reflexivity.
Qed.

Lemma splitext_root (p : string) : no_slash p = true -> no_slash (splitext p).1 = true.
Proof.
  intros Hp. unfold splitext. pose proof (cut_last_slash_app p) as Hcut.
  destruct (cut_last_slash p) as [h t]. simpl in Hcut.
  destruct (cut_last_dot t) as [[r e]|] eqn:E; [|exact Hp].
  destruct (all is_dot r); [exact Hp|]. simpl.
  apply cut_last_dot_app in E. subst t p. unfold no_slash in *.
  rewrite <- app_assoc, all_app in Hp. apply andb_true_iff in Hp as [Hr _]. exact Hr.
Qed.

Lemma no_slash_start (x y : string) :
  no_slash x = true -> starts_with_slash y = false -> starts_with_slash (x +:+ y) = false.
Proof.
  intros Hx Hy. destruct x as [|c x]; [exact Hy|].
  rewrite app_cons. simpl. unfold no_slash in Hx. simpl in Hx.
  apply andb_true_iff in Hx as [Hc _]. destruct (is_slash c); [discriminate|reflexivity].
Qed.

Section WorkingFiles.
Variable c : Config.
Variable d : string.

Lemma output_archive_name_no_slash : no_slash (output_archive_name c) = true.
Proof. apply split_tail. Qed.

Lemma wo_ext_no_slash : no_slash (output_archive_name_wo_ext c) = true.
Proof. apply splitext_root, output_archive_name_no_slash. Qed.

(** The three files of a run are named below its directory. *)
Lemma partial_link_path_prefix : String.prefix d (partial_link_path c d) = true.
Proof. apply join_prefix, no_slash_start; [apply wo_ext_no_slash|reflexivity]. Qed.

Lemma symbol_list_path_prefix : String.prefix d (symbol_list_path c d) = true.
Proof. apply join_prefix, no_slash_start; [apply wo_ext_no_slash|reflexivity]. Qed.

Lemma staged_prefix : String.prefix d (join d (output_archive_name c)) = true.
Proof.
  apply join_prefix. rewrite <- (app_nil_r (output_archive_name c)).
  apply no_slash_start; [apply output_archive_name_no_slash|reflexivity].
Qed.

End WorkingFiles.

End PathFacts.

(** ** The effects of the script's steps *)

Module Effects.
Import Str StrFacts.

Lemma bind_eq {A B : Type} (m : M A) (f : A -> M B) (w : World) :
  (m ≫= f) w =
  match m w with
  | (Ok a, w') => f a w'
  | (Raise e, w') => (Raise e, w')
  end.
Proof. reflexivity. Qed.

Lemma render_app (l1 l2 : list string) : render (l1 ++ l2) = render l1 +:+ render l2.
Proof.
  induction l1 as [|x l1 IH]; [reflexivity|].
  simpl. rewrite IH, !app_assoc. reflexivity.
Qed.

(** The loop of lines 137-138 appends the names to the file. *)
Lemma for_each_write (f : string) (names : list string) m d v err pr :
  for_each names (fun symbol => write f (symbol +:+ nl))
    (mkWorld (<[f := File d]> m) v err pr)
  = (Ok tt, mkWorld (<[f := File (d +:+ render names)]> m) v err pr).
Proof.
  revert d. induction names as [|x names IH]; intros d.
  - simpl. rewrite app_nil_r. reflexivity.
  - simpl for_each. rewrite bind_eq. unfold write at 1, modify_fs. simpl.
    rewrite alter_insert_eq, IH, app_assoc. reflexivity.
Qed.

(** The loop of lines 140-143 appends the names the pattern does not
    match. *)
Lemma for_each_write_unless (c : Config) (f : string) (names : list string) m d v err pr :
  for_each names
    (fun symbol =>
       match re_search (keep_global_regex c) symbol with
       | Some _ => mret tt
       | None => write f (symbol +:+ nl)
       end)
    (mkWorld (<[f := File d]> m) v err pr)
  = (Ok tt,
     mkWorld (<[f := File (d +:+ render
                 (List.filter (fun symbol => negb (kept_global c symbol)) names))]> m)
             v err pr).
Proof.
  revert d. induction names as [|x names IH]; intros d.
  - simpl. rewrite app_nil_r. reflexivity.
  - simpl for_each. rewrite bind_eq.
    change (List.filter ?p (x :: names))
      with (if p x then x :: List.filter p names else List.filter p names).
    cbv beta. unfold kept_global at 1.
    destruct (re_search (keep_global_regex c) x).
    + simpl negb. cbv iota. unfold mret at 1, M_ret. apply IH.
    + unfold write at 1, modify_fs. simpl negb. cbv iota. simpl fs.
      rewrite alter_insert_eq, IH. simpl render. rewrite app_assoc. reflexivity.
Qed.

(** The two generators, with the loop that consumes them. *)
Lemma iter_hidden_symbols_eq (E : Env) (p o : string) (body : string -> M unit)
    (w : World) :
  iter_hidden_symbols E p o body w =
  let cmd := [p; "-t"; o] in
  let a := child_stdout E cmd (fs w) in
  match for_each (hidden_symbols a.1) body
          (mkWorld (fs w) (VERBOSE w) (stderr w) (procs w ++ [(cmd, a.2)])) with
  | (Ok _, w') =>
      (if (a.2 =? 0)%Z then Ok tt else Raise (CalledProcessError a.2 cmd), w')
  | (Raise e, w') => (Raise e, w')
  end.
Proof.
  unfold iter_hidden_symbols, popen. cbv zeta. rewrite bind_eq.
  destruct (child_stdout E _ (fs w)) as [text code]. cbv iota beta. rewrite bind_eq.
  simpl fst. simpl snd.
  destruct (for_each _ _ _) as [[[]|e] w']; [|reflexivity].
  destruct (code =? 0)%Z; reflexivity.
Qed.

Lemma iter_global_symbols_eq (E : Env) (p o : string) (body : string -> M unit)
    (w : World) :
  iter_global_symbols E p o body w =
  let cmd := [p; "--defined-only"; "--extern-only"; "--print-file-name"; o] in
  let a := child_stdout E cmd (fs w) in
  match for_each (global_symbols a.1) body
          (mkWorld (fs w) (VERBOSE w) (stderr w) (procs w ++ [(cmd, a.2)])) with
  | (Ok _, w') =>
      (if (a.2 =? 0)%Z then Ok tt else Raise (CalledProcessError a.2 cmd), w')
  | (Raise e, w') => (Raise e, w')
  end.
Proof.
  unfold iter_global_symbols, popen. cbv zeta. rewrite bind_eq.
  destruct (child_stdout E _ (fs w)) as [text code]. cbv iota beta. rewrite bind_eq.
  simpl fst. simpl snd.
  destruct (for_each _ _ _) as [[[]|e] w']; [|reflexivity].
  destruct (code =? 0)%Z; reflexivity.
Qed.

(** The [with] block, in full. *)
Lemma write_symbol_list_eq (E : Env) (c : Config) (t : string) (w : World) :
  write_symbol_list E c t w =
  let f := symbol_list_path c t in
  let d := objdump_answer E c t w in
  let n := nm_answer E c t w in
  if localize_hidden c && negb (d.2 =? 0)%Z then
    (Raise (CalledProcessError d.2 (objdump_cmd c t)),
     mkWorld (<[f := File (render (hidden_symbols d.1))]> (fs w))
             (VERBOSE w) (stderr w)
             (procs w ++ [(objdump_cmd c t, d.2)]))
  else
    (if (n.2 =? 0)%Z then Ok tt else Raise (CalledProcessError n.2 (nm_cmd c t)),
     mkWorld (<[f := File (render (hidden_pass c d.1 ++ global_pass c n.1))]> (fs w))
             (VERBOSE w) (stderr w)
             (procs w ++ (if localize_hidden c then [(objdump_cmd c t, d.2)] else [])
                      ++ [(nm_cmd c t, n.2)])).
Proof.
  destruct w as [m v err pr].
  unfold write_symbol_list, nm_answer, objdump_answer, hidden_pass, global_pass.
  cbv zeta. rewrite bind_eq. unfold open_wb at 1, modify_fs. simpl fs. cbv iota beta.
  simpl VERBOSE. simpl stderr. simpl procs.
  destruct (localize_hidden c); rewrite bind_eq.
  - rewrite iter_hidden_symbols_eq. cbv zeta. simpl fs. simpl VERBOSE. simpl stderr.
    simpl procs. fold (objdump_cmd c t).
    destruct (child_stdout E (objdump_cmd c t) _) as [dt dc] eqn:Ed.
    simpl fst. simpl snd. rewrite for_each_write.
    change ("" +:+ ?x) with x.
    destruct (dc =? 0)%Z eqn:Edc; simpl negb; simpl andb; cbv iota beta; [|reflexivity].
    rewrite iter_global_symbols_eq. cbv zeta. simpl fs. simpl VERBOSE. simpl stderr.
    simpl procs. fold (nm_cmd c t).
    destruct (child_stdout E (nm_cmd c t) _) as [nt nc] eqn:En.
    simpl fst. simpl snd. rewrite for_each_write_unless.
    rewrite render_app, <- List.app_assoc. reflexivity.
  - unfold mret at 1, M_ret. cbv iota beta. simpl andb. cbv iota.
    rewrite iter_global_symbols_eq. cbv zeta. simpl fs. simpl VERBOSE. simpl stderr.
    simpl procs. fold (nm_cmd c t). simpl render.
    destruct (child_stdout E (nm_cmd c t) _) as [nt nc] eqn:En.
    simpl fst. simpl snd. rewrite for_each_write_unless. reflexivity.
Qed.

(** [run]: the child's exit status decides, the echo depends on
    [VERBOSE] only. *)
Lemma run_eq (E : Env) (args : list string) (w : World) :
  run E args w =
  let a := child E args (fs w) in
  (if (a.1 =? 0)%Z then Ok tt else Raise (CalledProcessError a.1 args),
   mkWorld a.2 (VERBOSE w)
           (stderr w ++ (if VERBOSE w then ["+ " +:+ shelljoin args] else []))
           (procs w ++ [(args, a.1)])).
Proof.
  unfold run. rewrite bind_eq. destruct w as [m v err pr]. simpl VERBOSE.
  destruct v; unfold echo_err, mret, M_ret, check_call; simpl;
    destruct (child E args m) as [code m']; simpl;
    rewrite ?List.app_nil_r; destruct (code =? 0)%Z; reflexivity.
Qed.

(** The link command is the driver, flags, and [-o] with the object. *)
Lemma link_command_ends (E : Env) (c : Config) (t : string) :
  exists flags : list string,
    link_command E c t = cc c :: (flags ++ ["-o"; partial_link_path c t])%list.
Proof.
  exists (shlex_split E (cflags c)
            ++ ["-nostartfiles"; "-nodefaultlibs"; "-Wl,--build-id=none";
                if is_final_link c then "-Wl,-Ur" else "-Wl,-r";
                "-Wl,--whole-archive"]
            ++ archives c ++ ["-Wl,--no-whole-archive"])%list.
  unfold link_command. simpl. f_equal.
  repeat (rewrite <- List.app_assoc; simpl). reflexivity.
Qed.

(** ** Files a computation leaves as they are *)

Lemma keeps_bind {A B : Type} (p : string) (m : M A) (f : A -> M B) (w : World) :
  keeps p m w ->
  (forall a, (m w).1 = Ok a -> keeps p (f a) (m w).2) ->
  keeps p (m ≫= f) w.
Proof.
  unfold keeps. rewrite bind_eq. destruct (m w) as [[a|e] w1]; simpl; intros H1 H2.
  - rewrite (H2 a eq_refl). exact H1.
  - exact H1.
Qed.

Lemma keeps_ret {A : Type} (p : string) (a : A) (w : World) : keeps p (mret a) w.
Proof. reflexivity. Qed.

Lemma keeps_run (E : Env) (p : string) (args : list string) (w : World) :
  (forall f, (child E args f).2 !! p = f !! p) -> keeps p (run E args) w.
Proof. intros H. unfold keeps. rewrite run_eq. simpl. apply H. Qed.

Lemma keeps_write_symbol_list (E : Env) (c : Config) (t p : string) (w : World) :
  p <> symbol_list_path c t -> keeps p (write_symbol_list E c t) w.
Proof.
  intros H. unfold keeps. rewrite write_symbol_list_eq. cbv zeta.
  destruct (localize_hidden c && _); simpl; apply lookup_insert_ne; congruence.
Qed.

Lemma keeps_mkdtemp (E : Env) (p sfx : string) (w : World) :
  p <> mkdtemp_name E sfx (fs w) -> keeps p (mkdtemp E sfx) w.
Proof. intros H. unfold keeps, mkdtemp. simpl. apply lookup_insert_ne. congruence. Qed.

(** Before the move only files of the working directory change. *)
Lemma build_keeps (E : Env) (c : Config) (w : World) (p : string) :
  writes_own_output E c ->
  String.prefix (temp_dir_of E c w) p = false ->
  keeps p (build E c) w.
Proof.
  intros [Hcc Hobjcopy Har Hranlib] Hp. unfold build.
  assert (Hne : forall q, String.prefix (temp_dir_of E c w) q = true -> p <> q)
    by (intros q Hq ->; congruence).
  apply keeps_bind; [reflexivity|]. intros [] _.
  apply keeps_bind; [apply keeps_mkdtemp, Hne, PathFacts.prefix_self|].
  intros t Ht. injection Ht as <-.
  change (mkdtemp_name E _ (fs w)) with (temp_dir_of E c w).
  set (t := temp_dir_of E c w) in *.
  apply keeps_bind.
  { apply keeps_run. intros f.
    destruct (link_command_ends E c t) as [flags ->].
    apply Hcc, Hne, PathFacts.partial_link_path_prefix. }
  intros [] _. apply keeps_bind.
  { apply keeps_write_symbol_list, Hne, PathFacts.symbol_list_path_prefix. }
  intros [] _. apply keeps_bind.
  { apply keeps_run. intros f. apply Hobjcopy, Hne, PathFacts.partial_link_path_prefix. }
  intros [] _. apply keeps_bind.
  { apply keeps_run. intros f. apply Har, Hne, PathFacts.staged_prefix. }
  intros [] _. apply keeps_bind.
  { apply keeps_run. intros f. apply Hranlib, Hne, PathFacts.staged_prefix. }
  intros [] _. apply keeps_ret.
Qed.

(** ** The log of child processes *)

Lemma logs_bind {A B : Type} (m : M A) (f : A -> M B) (w : World) :
  logs m w ->
  (forall a, (m w).1 = Ok a -> logs (f a) (m w).2) ->
  logs (m ≫= f) w.
Proof.
  unfold logs. rewrite bind_eq. destruct (m w) as [[a|e] w1]; simpl.
  - intros (l1 & H1 & _) H2. destruct (H2 a eq_refl) as (l2 & H3 & H4).
    exists (l1 ++ l2)%list. split.
    + rewrite H3, H1, List.app_assoc. reflexivity.
    + intros e He. apply Exists_app. right. apply (H4 e He).
  - intros (l1 & H1 & H2) _. exists l1. split; [exact H1|].
    intros e' He. injection He as <-. apply (H2 e eq_refl).
Qed.

Lemma logs_ret {A : Type} (a : A) (w : World) : logs (mret a) w.
Proof. exists []. split; [symmetry; apply List.app_nil_r|discriminate]. Qed.

Lemma logs_run (E : Env) (args : list string) (w : World) : logs (run E args) w.
Proof.
  unfold logs. rewrite run_eq. cbv zeta. simpl.
  exists [(args, (child E args (fs w)).1)]. split; [reflexivity|].
  intros e He. apply Exists_cons_hd. simpl.
  destruct ((child E args (fs w)).1 =? 0)%Z eqn:Ez; [discriminate|].
  apply Z.eqb_neq. exact Ez.
Qed.

Lemma logs_write_symbol_list (E : Env) (c : Config) (t : string) (w : World) :
  logs (write_symbol_list E c t) w.
Proof.
  unfold logs. rewrite write_symbol_list_eq. cbv zeta.
  destruct (localize_hidden c && _) eqn:Eh; simpl.
  - eexists. split; [reflexivity|]. intros e _. apply Exists_cons_hd. simpl.
    apply andb_true_iff in Eh as [_ Eh]. apply negb_true_iff in Eh.
    apply Z.eqb_neq. exact Eh.
  - eexists. split; [reflexivity|]. intros e He. apply Exists_app. right.
    apply Exists_cons_hd. simpl.
    destruct ((nm_answer E c t w).2 =? 0)%Z eqn:Ez; [discriminate|].
    apply Z.eqb_neq. exact Ez.
Qed.




Lemma bind_Ok_inv {A B : Type} (m : M A) (f : A -> M B) (w : World) (b : B) :
  ((m ≫= f) w).1 = Ok b ->
  exists a, (m w).1 = Ok a /\ (m ≫= f) w = f a (m w).2.
Proof.
  rewrite bind_eq. destruct (m w) as [[a|e] w1]; simpl; [|discriminate].
  intros _. exists a. split; reflexivity.
Qed.


Lemma bind_Ok {A B : Type} (m : M A) (f : A -> M B) (w : World) (b : B) :
  ((m ≫= f) w).1 = Ok b ->
  exists a w1, m w = (Ok a, w1) /\ (f a w1).1 = Ok b.
Proof.
  rewrite bind_eq. destruct (m w) as [[a|e] w1]; simpl; [|discriminate].
  intros H. exists a, w1. split; [reflexivity|exact H].
Qed.


End Effects.

(** ** The small world meets what is assumed of the tools *)

Module DemoFacts.
Import Str StrFacts.



Lemma output_arg_app (flags : list string) (out : string) :
  Demo.output_arg (flags ++ ["-o"; out]) = Some out.
Proof. unfold Demo.output_arg. rewrite rev_app_distr. reflexivity. Qed.

Lemma writes_own_output_demo (broken dt nt : string) (h : bool) (keep : regex) :
  writes_own_output (Demo.env broken dt nt) (Demo.config h keep).
Proof.
  split; cbn [child cc objcopy ar ranlib Demo.env Demo.config]; unfold Demo.child.
  - intros flags out f p Hp.
    destruct (String.eqb "cc" broken); [reflexivity|]. simpl.
    rewrite output_arg_app. simpl. apply lookup_insert_ne. congruence.
  - intros l o f p Hp.
    destruct (String.eqb "objcopy" broken); [reflexivity|]. simpl.
    destruct (f !! l) as [[names|]|]; try reflexivity.
    destruct (f !! o) as [[d|]|]; try reflexivity.
    simpl. apply lookup_insert_ne. congruence.
  - intros a o f p Hp.
    destruct (String.eqb "ar" broken); [reflexivity|]. simpl.
    destruct (f !! o) as [[d|]|]; try reflexivity.
    simpl. apply lookup_insert_ne. congruence.
  - intros a f p Hp.
    destruct (String.eqb "ranlib" broken); [reflexivity|]. simpl.
    destruct (f !! a) as [[d|]|]; try reflexivity.
    simpl. apply lookup_insert_ne. congruence.
Qed.




End DemoFacts.

(** ** What a line yields *)

Module Lines.
Import Str StrFacts Patterns.

Lemma hidden_symbol_Some (line symbol : string) :
  hidden_symbol line = Some symbol ->
  hidden_token line symbol /\ re_match thunk_re symbol = None.
Proof.
  unfold hidden_symbol. intros H.
  destruct (re_search hidden_re line) as [m|] eqn:Em; [|discriminate].
  destruct (hidden_re_inv _ _ Em) as (pre & sym & b & -> & Hne & Hw & Hb & ->).
  simpl in H. destruct (re_match thunk_re sym) eqn:Et; [discriminate|].
  injection H as <-. split; [|exact Et].
  split; [exact Hne|]. split; [exact Hw|]. exists pre, b. split; [reflexivity|exact Hb].
Qed.

Lemma hidden_symbol_token (line symbol : string) :
  hidden_token line symbol ->
  hidden_symbol line = match re_match thunk_re symbol with
                       | Some _ => None
                       | None => Some symbol
                       end.
Proof.
  intros (Hne & Hw & pre & b & -> & Hb). unfold hidden_symbol.
  rewrite (hidden_re_app pre symbol b Hne Hw Hb). reflexivity.
Qed.

Lemma hidden_token_trailing (line symbol : string) :
  hidden_token line symbol -> trailing_token line symbol.
Proof.
  intros (Hne & Hw & pre & b & -> & Hb).
  split; [exact Hne|]. split; [exact Hw|].
  exists (pre +:+ ".hidden "), b. split; [|exact Hb]. rewrite app_assoc. reflexivity.
Qed.

Lemma global_symbol_Some (line symbol : string) :
  global_symbol line = Some symbol -> trailing_token line symbol.
Proof.
  unfold global_symbol. intros H.
  destruct (re_search global_re line) as [m|] eqn:Em; [|discriminate].
  destruct (global_re_inv _ _ Em) as (pre & sym & b & -> & Hne & Hw & Hb & _ & ->).
  simpl in H. injection H as <-.
  split; [exact Hne|]. split; [exact Hw|]. exists pre, b. split; [reflexivity|exact Hb].
Qed.

(** Names on the list are made of word characters. *)
Lemma hidden_symbols_word (text : string) :
  Forall (fun symbol => all is_word symbol = true) (hidden_symbols text).
Proof.
  apply Forall_forall. intros symbol H. apply list_elem_of_omap in H.
  destruct H as (line & _ & H). apply hidden_symbol_Some in H.
  destruct H as [(_ & Hw & _) _]. exact Hw.
Qed.

Lemma global_symbols_word (text : string) :
  Forall (fun symbol => all is_word symbol = true) (global_symbols text).
Proof.
  apply Forall_forall. intros symbol H. apply list_elem_of_omap in H.
  destruct H as (line & _ & H). apply global_symbol_Some in H.
  destruct H as (_ & Hw & _). exact Hw.
Qed.

Lemma Forall_List_filter {A : Type} (P : A -> Prop) (f : A -> bool) (l : list A) :
  Forall P l -> Forall P (List.filter f l).
Proof.
  induction 1 as [|x l Hx _ IH]; simpl; [constructor|].
  destruct (f x); [constructor; assumption|exact IH].
Qed.

Lemma symbol_list_word (c : Config) (objdump_text nm_text : string) :
  Forall (fun symbol => all is_word symbol = true)
         (hidden_pass c objdump_text ++ global_pass c nm_text).
Proof.
  apply Forall_app. split.
  - unfold hidden_pass. destruct (localize_hidden c); [apply hidden_symbols_word|constructor].
  - apply Forall_List_filter, global_symbols_word.
Qed.

Lemma symbol_list_tokens (c : Config) (objdump_text nm_text : string) :
  Forall (fun symbol => symbol <> "" /\ all is_word symbol = true)
         (hidden_pass c objdump_text ++ global_pass c nm_text).
Proof.
  apply Forall_app. split.
  - unfold hidden_pass. destruct (localize_hidden c); [|constructor].
    apply Forall_forall. intros symbol H. apply list_elem_of_omap in H.
    destruct H as (line & _ & H). apply hidden_symbol_Some in H.
    destruct H as [(Hne & Hw & _) _]. split; assumption.
  - apply Forall_List_filter.
    apply Forall_forall. intros symbol H. apply list_elem_of_omap in H.
    destruct H as (line & _ & H). apply global_symbol_Some in H.
    destruct H as (Hne & Hw & _). split; assumption.
Qed.

Lemma word_not_space (ch : ascii) : is_word ch = true -> in_cset NonSpace ch = true.
Proof. destruct ch as [[] [] [] [] [] [] [] []]; vm_compute; congruence. Qed.

Lemma all_word_not_space (s : string) :
  all is_word s = true -> all (in_cset NonSpace) s = true.
Proof.
  induction s as [|ch s IH]; [reflexivity|]. cbn [all]. intros H.
  apply andb_true_iff in H as [Hc Hs].
  rewrite (word_not_space _ Hc), (IH Hs). reflexivity.
Qed.

(** The wildcard of the specification. *)
Lemma glob_lit_inv (l : string) (p : list glob_item) (s : string) :
  all (fun ch => negb (Ascii.eqb ch "*"%char)) l = true ->
  glob_match (glob_of_string l ++ p) s = true ->
  exists s', s = l +:+ s' /\ glob_match p s' = true.
Proof.
  revert s. induction l as [|ch l IH]; intros s Hl H.
  - exists s. split; [reflexivity|exact H].
  - simpl in Hl. apply andb_true_iff in Hl as [Hc Hl]. apply negb_true_iff in Hc.
    simpl in H. rewrite Hc in H. simpl in H.
    destruct s as [|ch' s]; [discriminate|].
    apply andb_true_iff in H as [He H]. apply Ascii.eqb_eq in He. subst ch'.
    destruct (IH s Hl H) as (s' & -> & H'). exists s'. split; [reflexivity|exact H'].
Qed.

Lemma glob_star_inv (p : list glob_item) (s : string) :
  glob_match (GlobStar :: p) s = true ->
  exists a b, s = a +:+ b /\ glob_match p b = true.
Proof.
  induction s as [|ch s IH]; simpl; intros H.
  - exists "", "". split; [reflexivity|].
    destruct (glob_match p ""); [reflexivity|discriminate].
  - apply orb_true_iff in H as [H|H].
    + exists "", (String ch s). split; [reflexivity|exact H].
    + destruct (IH H) as (a & b & -> & Hb). exists (String ch a), b.
      split; [reflexivity|exact Hb].
Qed.

Lemma spec_thunk_glob_inv (symbol : string) :
  glob_match spec_thunk_glob symbol = true ->
  exists a b, symbol = "__" +:+ a +:+ "get_pc_thunk" +:+ b.
Proof.
  unfold spec_thunk_glob.
  change (glob_of_string "__*get_pc_thunk*")
    with (glob_of_string "__"
            ++ GlobStar :: (glob_of_string "get_pc_thunk" ++ [GlobStar]))%list.
  intros H. apply glob_lit_inv in H; [|reflexivity]. destruct H as (s1 & -> & H).
  apply glob_star_inv in H. destruct H as (a & s2 & -> & H).
  apply glob_lit_inv in H; [|reflexivity]. destruct H as (b & -> & _).
  exists a, b. reflexivity.
Qed.

End Lines.

(** ** Checks on concrete inputs *)

Module Checks.

Example readlines_keeps_newlines :
  readlines ("a b" +:+ nl +:+ nl +:+ "c") = ["a b" +:+ nl; nl; "c"].
Proof. reflexivity. Qed.

Example split_output : split "/out/dir/libdispatch.a" = ("/out/dir", "libdispatch.a").
Proof. reflexivity. Qed.

Example split_root : split "/libx.a" = ("/", "libx.a").
Proof. reflexivity. Qed.

Example splitext_archive : splitext "libdispatch.a" = ("libdispatch", ".a").
Proof. reflexivity. Qed.

Example splitext_two_dots : splitext "a.tar.gz" = ("a.tar", ".gz").
Proof. reflexivity. Qed.

Example splitext_dotfile : splitext "/home/u/.bashrc" = ("/home/u/.bashrc", "").
Proof. reflexivity. Qed.

Example join_relative : join "/tmp/t" "x.o" = "/tmp/t/x.o".
Proof. reflexivity. Qed.

Example join_absolute : join "/tmp/t" "/x.o" = "/x.o".
Proof. reflexivity. Qed.

Example join_after_slash : join "/tmp/t/" "x" = "/tmp/t/x" /\ join "" "x" = "x".
Proof. split; reflexivity. Qed.

Example join_empty_name : join "/tmp/t" "" = "/tmp/t/".
Proof. reflexivity. Qed.

Example splitext_leading_dots :
  splitext "..x.a" = ("..x", ".a") /\ splitext "..." = ("...", "").
Proof. split; reflexivity. Qed.

Example splitext_dot_in_directory : splitext "/a.b/c" = ("/a.b/c", "").
Proof. reflexivity. Qed.

Example split_double_slash : split "//a//b" = ("//a", "b").
Proof. reflexivity. Qed.

Example shelljoin_quotes :
  shelljoin ["cc"; "-o"; "a b"; ""; "it's"]
  = "cc -o 'a b' '' 'it'" +:+ dquote +:+ "'" +:+ dquote +:+ "'s'".
Proof. reflexivity. Qed.

Example hidden_line_yields :
  hidden_symbol ("0000 g F .text 0005 .hidden foo_bar" +:+ nl) = Some "foo_bar".
Proof. reflexivity. Qed.

Example hidden_line_without_newline :
  hidden_symbol "0000 g F .text 0005 .hidden foo_bar" = Some "foo_bar".
Proof. reflexivity. Qed.

Example hidden_thunk_skipped :
  hidden_symbol ("0000 g F .text 0005 .hidden __i686_get_pc_thunk_bx" +:+ nl) = None.
Proof. reflexivity. Qed.

Example hidden_line_two_newlines :
  hidden_symbol ("0000 .hidden foo" +:+ nl +:+ nl) = None.
Proof. reflexivity. Qed.

Example thunk_match_is_anchored :
  re_match thunk_re "__i686_get_pc_thunk_bx" = Some []
  /\ re_match thunk_re "x__get_pc_thunk_bx" = None.
Proof. split; reflexivity. Qed.

Example not_hidden_line_skipped :
  hidden_symbol ("0000 g F .text 0005 foo_bar" +:+ nl) = None.
Proof. reflexivity. Qed.

(** [nm] prints a dotted name: the pass takes what follows the last dot. *)
Example global_line_dotted_name :
  global_symbol ("a.o:0000 T __x86.get_pc_thunk.bx" +:+ nl) = Some "bx".
Proof. reflexivity. Qed.

Example global_line_yields :
  global_symbol ("a.o:0000 T dispatch_main" +:+ nl) = Some "dispatch_main".
Proof. reflexivity. Qed.

Example global_line_no_token : global_symbol ("a.o:" +:+ nl) = None.
Proof. reflexivity. Qed.

Example keep_prefix_pattern :
  re_search Demo.keep_my_api "my_api_init" = Some []
  /\ re_search Demo.keep_my_api "internal_helper" = None
  /\ re_search Demo.keep_my_api "not_my_api_init" = None.
Proof. repeat split. Qed.

(** [^$] matches no name: both are demoted. *)
Example scenario_A :
  Demo.symbol_list_of Demo.two_globals (Demo.config true (Seq Bol Eol))
  = Some (File ("foo" +:+ nl +:+ "bar" +:+ nl)).
Proof. vm_compute. reflexivity. Qed.

(** [foo] keeps [foo]. *)
Example scenario_B :
  Demo.symbol_list_of Demo.two_globals (Demo.config true (Lit "foo"))
  = Some (File ("bar" +:+ nl)).
Proof. vm_compute. reflexivity. Qed.

(** [.*] keeps everything, and hidden symbols are left alone. *)
Example scenario_C :
  Demo.symbol_list_of
    (Demo.env "" ("0000 g F .text 0005 .hidden secret" +:+ nl)
                 ("a.o:0000 T secret" +:+ nl +:+ "a.o:0010 T pub" +:+ nl))
    (Demo.config false (Star (Cls AnyChar)))
  = Some (File "").
Proof. vm_compute. reflexivity. Qed.

End Checks.

(** * The claims *)

Import Str StrFacts Patterns Lines Effects.

(** ** Atomic publication *)

(** C1.  Whatever happens before the move, the file at the final output
    path is as it was before the run (same content, or still absent):
    [build], which is [main] up to the indexer, does not write there, and
    when one of its steps raises (the link, the writing of the symbol
    list with its two children, the binary editor, the archiver, the
    indexer) [main] stops in the world [build] left.  Assumed: each of
    the four tools writes only the file it is asked to produce, and the
    output path does not start with the name of the fresh working
    directory. *)
Theorem output_untouched_before_move (E : Env) (c : Config) (w : World) :
  writes_own_output E c ->
  String.prefix (temp_dir_of E c w) (output c) = false ->
  fs (build E c w).2 !! output c = fs w !! output c
  /\ forall e, (build E c w).1 = Raise e ->
       main E c w = (Raise e, (build E c w).2)
       /\ fs (main E c w).2 !! output c = fs w !! output c.
Proof.
  intros Htools Hout.
  pose proof (build_keeps E c w (output c) Htools Hout) as Hk. unfold keeps in Hk.
  split; [exact Hk|].
  intros e He. unfold main. rewrite bind_eq.
  destruct (build E c w) as [[d|e'] w1]; simpl in He; [discriminate|].
  injection He as ->. split; [reflexivity|exact Hk].
Qed.

Lemma output_untouched_before_move_witness :
  (build Demo.ar_fails Demo.conf Demo.world).1
  = Raise (CalledProcessError 1
             ["ar"; "cr"; "/tmp/tmpk3_libdispatch/libdispatch.a";
              "/tmp/tmpk3_libdispatch/libdispatch.o"])
  /\ fs (main Demo.ar_fails Demo.conf Demo.world).2 !! "/out/libdispatch.a"
     = Some (File "old").
Proof.
  split; [vm_compute; reflexivity|].
  destruct (output_untouched_before_move Demo.ar_fails Demo.conf Demo.world) as [_ H].
  - apply DemoFacts.writes_own_output_demo.
  - vm_compute. reflexivity.
  - destruct (H (CalledProcessError 1
                   ["ar"; "cr"; "/tmp/tmpk3_libdispatch/libdispatch.a";
                    "/tmp/tmpk3_libdispatch/libdispatch.o"])) as [_ H'].
    + vm_compute. reflexivity.
    + etransitivity; [exact H'|]. vm_compute. reflexivity.
Defined.




(** ** The hidden-symbol pass *)

(** C3.  Whatever [objdump] prints, the hidden-symbol pass yields no name
    the exclusion pattern matches, be it the pattern of line 58 under
    [re.match] or the wildcard [__*get_pc_thunk*] of the specification;
    a line that marks [__x86.get_pc_thunk.bx] as hidden yields nothing,
    and that name is never on the list of names to demote, whatever the
    two tools print and whatever the two policy inputs are. *)
Theorem hidden_pass_never_yields_pic_thunk (objdump_text : string) :
  Forall (fun symbol => re_match thunk_re symbol = None
                        /\ glob_match spec_thunk_glob symbol = false)
         (hidden_symbols objdump_text)
  /\ (forall pre : string,
        hidden_symbol (pre +:+ ".hidden __x86.get_pc_thunk.bx" +:+ nl) = None)
  /\ (forall (c : Config) (nm_text : string),
        Forall (fun symbol => symbol <> "__x86.get_pc_thunk.bx")
               (hidden_pass c objdump_text ++ global_pass c nm_text)).
Proof.
  split; [|split].
  - apply Forall_forall. intros symbol H. apply list_elem_of_omap in H.
    destruct H as (line & _ & H). apply hidden_symbol_Some in H.
    destruct H as [(_ & Hw & _) Ht]. split; [exact Ht|].
    destruct (glob_match spec_thunk_glob symbol) eqn:Eg; [|reflexivity].
    exfalso. apply spec_thunk_glob_inv in Eg. destruct Eg as (a & b & ->).
    revert Ht. apply thunk_re_app.
    rewrite !all_app in Hw. apply andb_true_iff in Hw as [_ Hw].
    apply andb_true_iff in Hw as [Hw _]. apply all_word_not_space, Hw.
  - intros pre.
    destruct (hidden_symbol _) as [symbol|] eqn:E; [|reflexivity].
    exfalso. apply hidden_symbol_Some in E.
    destruct E as [(Hne & Hw & pre' & b & E & Hb) _].
    change (".hidden __x86.get_pc_thunk.bx" +:+ nl)
      with (".hidden __x86.get_pc_thunk." +:+ "bx" +:+ nl) in E.
    rewrite <- (app_assoc pre), <- (app_assoc pre') in E.
    destruct (Tail.word_tail_unique _ _ _ _ _ _ E) as (Hu & _ & _);
      try assumption; try reflexivity; try discriminate;
      try (rewrite last_char_app; reflexivity).
    apply (f_equal (last_char None)) in Hu. rewrite !last_char_app in Hu.
    discriminate Hu.
  - intros c nm_text. eapply Forall_impl; [apply symbol_list_word|].
    intros symbol Hw ->. vm_compute in Hw. discriminate.
Qed.

(** C9.  The exclusion of line 58 is anchored at the start of the name.
    Take a line of the [objdump] output that marks [symbol] as hidden.
    The line yields nothing exactly when the name is [__], then
    characters that are not white space, then [get_pc_thunk], then
    anything, and the hidden-symbol pass yields the name exactly when it
    is not of that form.  A name that does not begin with [__] is
    therefore yielded by the pass, whether or not [get_pc_thunk] occurs
    in it, and demoted: with [localize_hidden] on it is on the list of
    names, and in the symbol list file when [objdump] exits with status
    zero. *)
Theorem thunk_exclusion_anchored_at_start (objdump_text line symbol : string) :
  line ∈ readlines objdump_text ->
  hidden_token line symbol ->
  let thunk_like :=
    exists a b, symbol = "__" +:+ a +:+ "get_pc_thunk" +:+ b
                /\ all (fun ch => negb (is_space ch)) a = true in
  (hidden_symbol line = None <-> thunk_like)
  /\ (symbol ∈ hidden_symbols objdump_text <-> ~ thunk_like)
  /\ (String.prefix "__" symbol = false ->
      hidden_symbol line = Some symbol
      /\ symbol ∈ hidden_symbols objdump_text
      /\ (forall (c : Config) (nm_text : string),
            localize_hidden c = true ->
            symbol ∈ (hidden_pass c objdump_text ++ global_pass c nm_text)%list)
      /\ (forall (E : Env) (c : Config) (t : string) (w : World),
            localize_hidden c = true ->
            objdump_answer E c t w = (objdump_text, 0%Z) ->
            exists names,
              fs (write_symbol_list E c t w).2 !! symbol_list_path c t
              = Some (File (render names))
              /\ symbol ∈ names)).
Proof.
  intros Hin Htok thunk_like.
  pose proof (hidden_symbol_token _ _ Htok) as Hline.
  assert (Hiff : re_match thunk_re symbol <> None <-> thunk_like).
  { split.
    - destruct (re_match thunk_re symbol) as [m|] eqn:Em; [|congruence].
      intros _. apply (thunk_re_inv _ _ Em).
    - intros (a & b & -> & Ha). apply thunk_re_app, Ha. }
  assert (Hpass : symbol ∈ hidden_symbols objdump_text <-> ~ thunk_like).
  { split.
    - intros H. apply list_elem_of_omap in H. destruct H as (line' & _ & H).
      apply hidden_symbol_Some in H. destruct H as [_ Ht].
      intros Hth. apply Hiff in Hth. congruence.
    - intros Hn. apply list_elem_of_omap. exists line. split; [exact Hin|].
      rewrite Hline. destruct (re_match thunk_re symbol) eqn:Em; [|reflexivity].
      exfalso. apply Hn, Hiff. congruence. }
  assert (Hprefix : String.prefix "__" symbol = false -> ~ thunk_like).
  { intros Hp (a & b & -> & _). rewrite PathFacts.prefix_app in Hp. discriminate. }
  split; [|split; [exact Hpass|]].
  - rewrite Hline, <- Hiff. destruct (re_match thunk_re symbol); split; congruence.
  - intros Hp. pose proof (Hprefix Hp) as Hn.
    assert (Hy : symbol ∈ hidden_symbols objdump_text) by (apply Hpass, Hn).
    split; [|split; [exact Hy|split]].
    + rewrite Hline. destruct (re_match thunk_re symbol) eqn:Em; [|reflexivity].
      exfalso. apply Hn, Hiff. congruence.
    + intros c nm_text Hl. apply elem_of_app. left.
      unfold hidden_pass. rewrite Hl. exact Hy.
    + intros E c t w Hl Hans.
      exists (hidden_pass c objdump_text ++ global_pass c (nm_answer E c t w).1)%list.
      split.
      * rewrite write_symbol_list_eq. cbv zeta. rewrite Hans, Hl. simpl.
        apply lookup_insert_eq.
      * apply elem_of_app. left. unfold hidden_pass. rewrite Hl. exact Hy.
Qed.

Lemma thunk_exclusion_anchored_at_start_witness :
  Demo.thunk_like_line ∈ readlines Demo.thunk_dump
  /\ hidden_token Demo.thunk_like_line "x__get_pc_thunk_bx"
  /\ hidden_symbols Demo.thunk_dump = ["my_api_init"; "x__get_pc_thunk_bx"]
  /\ "x__get_pc_thunk_bx" ∈ hidden_symbols Demo.thunk_dump
  /\ exists names,
       fs (write_symbol_list Demo.with_thunk_like Demo.conf Demo.temp_dir Demo.world).2
         !! symbol_list_path Demo.conf Demo.temp_dir
       = Some (File (render names))
       /\ "x__get_pc_thunk_bx" ∈ names.
Proof.
  assert (Hin : Demo.thunk_like_line ∈ readlines Demo.thunk_dump)
    by (apply list_elem_of_lookup; exists 3%nat; reflexivity).
  assert (Htok : hidden_token Demo.thunk_like_line "x__get_pc_thunk_bx").
  { split; [discriminate|]. split; [reflexivity|].
    exists "0000000000000010 g     F .text  0000000000000005 ", nl.
    split; reflexivity. }
  split; [exact Hin|]. split; [exact Htok|]. split; [vm_compute; reflexivity|].
  destruct (thunk_exclusion_anchored_at_start
              Demo.thunk_dump Demo.thunk_like_line "x__get_pc_thunk_bx" Hin Htok)
    as (_ & _ & H).
  destruct (H eq_refl) as (_ & Hy & _ & Hfile).
  split; [exact Hy|].
  apply (Hfile Demo.with_thunk_like Demo.conf Demo.temp_dir Demo.world); reflexivity.
Defined.

(** C10.  Every name either pass yields is a non-empty run of word
    characters with which its line ends (after [.hidden ] and a space in
    the hidden-symbol pass); a line that does not end so yields nothing
    in either pass; hence no name with a character outside the word
    characters, a dot for one, is ever on the list of names to demote:
    it is lost when the line is read, before the exclusion of line 58 or
    the test of line 141 is applied. *)
Theorem yielded_names_are_trailing_word_tokens
    (c : Config) (objdump_text nm_text : string) :
  Forall (fun symbol =>
            exists line, line ∈ readlines objdump_text /\ hidden_token line symbol)
         (hidden_symbols objdump_text)
  /\ Forall (fun symbol =>
               exists line, line ∈ readlines nm_text /\ trailing_token line symbol)
            (global_symbols nm_text)
  /\ (forall line : string,
        ((forall s, ~ hidden_token line s) -> hidden_symbol line = None)
        /\ ((forall s, ~ trailing_token line s) ->
            hidden_symbol line = None /\ global_symbol line = None))
  /\ Forall (fun symbol => symbol <> "" /\ all is_word symbol = true)
            (hidden_pass c objdump_text ++ global_pass c nm_text).
Proof.
  split; [|split; [|split]].
  - apply Forall_forall. intros symbol H. apply list_elem_of_omap in H.
    destruct H as (line & Hin & H). exists line. split; [exact Hin|].
    apply hidden_symbol_Some in H. apply H.
  - apply Forall_forall. intros symbol H. apply list_elem_of_omap in H.
    destruct H as (line & Hin & H). exists line. split; [exact Hin|].
    apply global_symbol_Some, H.
  - intros line. split; [|intros Hno; split].
    + intros Hno. destruct (hidden_symbol line) as [s|] eqn:E; [|reflexivity].
      exfalso. apply (Hno s). apply hidden_symbol_Some in E. apply E.
    + destruct (hidden_symbol line) as [s|] eqn:E; [|reflexivity].
      exfalso. apply (Hno s). apply hidden_token_trailing.
      apply hidden_symbol_Some in E. apply E.
    + destruct (global_symbol line) as [s|] eqn:E; [|reflexivity].
      exfalso. apply (Hno s). apply global_symbol_Some, E.
  - apply Forall_app. split.
    + unfold hidden_pass. destruct (localize_hidden c); [|constructor].
      apply Forall_forall. intros symbol H. apply list_elem_of_omap in H.
      destruct H as (line & _ & H). apply hidden_symbol_Some in H.
      destruct H as [(Hne & Hw & _) _]. split; assumption.
    + apply Forall_List_filter.
      apply Forall_forall. intros symbol H. apply list_elem_of_omap in H.
      destruct H as (line & _ & H). apply global_symbol_Some in H.
      destruct H as (Hne & Hw & _). split; assumption.
Qed.

(** ** The global-symbol pass *)

(** The test of line 141 is a search: the pattern matches at some
    position of the name. *)
Lemma kept_global_search (c : Config) (symbol : string) :
  kept_global c symbol = true <->
  exists pre rest,
    symbol = pre +:+ rest
    /\ match_at (keep_global_regex c) (last_char None pre) rest accept [] <> None.
Proof.
  unfold kept_global, re_search. split.
  - destruct (search_from _ None symbol) as [g|] eqn:Eg; [|discriminate].
    intros _. apply ReFacts.search_from_inv in Eg. destruct Eg as (pre & rest & -> & H).
    exists pre, rest. split; [reflexivity|]. rewrite H. discriminate.
  - intros (pre & rest & -> & H).
    pose proof (ReFacts.search_from_app (keep_global_regex c) None pre rest H) as Hs.
    destruct (search_from _ None (pre +:+ rest)); [reflexivity|congruence].
Qed.

(** C4, as the code has it.  The global-symbol pass writes exactly the
    names it extracts that the keep-global pattern matches nowhere, in
    the order and as often as [nm] prints them; a name is kept when the
    pattern matches at some position of it.  When [localize_hidden] is
    off these names are the whole symbol list, so no name the pattern
    matches is demoted.  When it is on, the names of the hidden-symbol
    pass come first and are not tested against the pattern. *)
Theorem keep_global_filters_global_pass (E : Env) (c : Config) (t : string) (w : World) :
  let objdump_text := (objdump_answer E c t w).1 in
  let nm_text := (nm_answer E c t w).1 in
  global_pass c nm_text
  = List.filter (fun symbol => negb (kept_global c symbol)) (global_symbols nm_text)
  /\ (forall symbol,
        symbol ∈ global_pass c nm_text <->
        symbol ∈ global_symbols nm_text
        /\ re_search (keep_global_regex c) symbol = None)
  /\ (forall symbol,
        re_search (keep_global_regex c) symbol = None <->
        forall pre rest,
          symbol = pre +:+ rest ->
          match_at (keep_global_regex c) (last_char None pre) rest accept [] = None)
  /\ (localize_hidden c = false ->
      fs (write_symbol_list E c t w).2 !! symbol_list_path c t
      = Some (File (render (global_pass c nm_text))))
  /\ (localize_hidden c = true -> (objdump_answer E c t w).2 = 0%Z ->
      fs (write_symbol_list E c t w).2 !! symbol_list_path c t
      = Some (File (render (hidden_symbols objdump_text ++ global_pass c nm_text)))).
Proof.
  intros objdump_text nm_text.
  assert (Hnone : forall symbol,
             re_search (keep_global_regex c) symbol = None <-> kept_global c symbol = false).
  { intros symbol. unfold kept_global.
    destruct (re_search (keep_global_regex c) symbol); split; congruence. }
  split; [reflexivity|]. split; [|split; [|split]].
  - intros symbol. unfold global_pass.
    rewrite list_elem_of_In, List.filter_In, <- list_elem_of_In, Hnone, negb_true_iff.
    reflexivity.
  - intros symbol. rewrite Hnone. split.
    + intros Hk pre rest ->.
      destruct (match_at _ _ rest accept []) eqn:Em; [|reflexivity].
      exfalso. assert (Ht : kept_global c (pre +:+ rest) = true).
      { apply kept_global_search. exists pre, rest. split; [reflexivity|]. congruence. }
      congruence.
    + intros Hall. destruct (kept_global c symbol) eqn:Ek; [|reflexivity].
      exfalso. apply kept_global_search in Ek. destruct Ek as (pre & rest & -> & H).
      apply H, Hall. reflexivity.
  - intros Hl. rewrite write_symbol_list_eq. cbv zeta.
    unfold nm_text, hidden_pass. rewrite Hl. simpl andb. cbv iota. simpl fs.
    rewrite lookup_insert_eq. reflexivity.
  - intros Hl Hz. rewrite write_symbol_list_eq. cbv zeta.
    unfold nm_text, objdump_text, hidden_pass. rewrite Hl, Hz. simpl.
    rewrite lookup_insert_eq. reflexivity.
Qed.

(** C4, as the specification has it, fails: with the pattern
    [^my_api_] and [localize_hidden] on, a symbol [my_api_init] that
    [objdump] marks as hidden is written to the symbol list although the
    pattern matches it. *)
Lemma keep_global_pattern_does_not_protect_hidden_symbols :
  re_search (keep_global_regex Demo.conf) "my_api_init" = Some []
  /\ In "my_api_init" (global_symbols Demo.nm_text)
  /\ fs (write_symbol_list Demo.works Demo.conf Demo.temp_dir Demo.world).2
       !! symbol_list_path Demo.conf Demo.temp_dir
     = Some (File ("my_api_init" +:+ nl +:+ "internal_helper" +:+ nl
                   +:+ "internal_helper" +:+ nl))
  /\ (main Demo.works Demo.conf Demo.world).1 = Ok tt
  /\ fs (main Demo.works Demo.conf Demo.world).2 !! output Demo.conf
     = Some (File ("!<arch> ELF local:my_api_init" +:+ nl +:+ "internal_helper" +:+ nl
                   +:+ "internal_helper" +:+ nl +:+ " indexed")).
Proof.
  vm_compute. repeat split; auto.
Qed.

(** ** The symbol list *)

(** C6.  When the hidden-symbol pass does not fail (it is not run, or
    [objdump] exits with status zero), the symbol list file holds the
    names of the hidden-symbol pass followed by the names of the
    global-symbol pass, one per line, nothing merged or dropped.  With
    [localize_hidden] off the first part is empty and [objdump] is not
    started; [nm] is started in both cases. *)
Theorem symbol_list_is_hidden_then_global (E : Env) (c : Config) (t : string) (w : World) :
  localize_hidden c = false \/ (objdump_answer E c t w).2 = 0%Z ->
  fs (write_symbol_list E c t w).2 !! symbol_list_path c t
  = Some (File (render (hidden_pass c (objdump_answer E c t w).1
                        ++ global_pass c (nm_answer E c t w).1)))
  /\ (localize_hidden c = false ->
      hidden_pass c (objdump_answer E c t w).1 = []
      /\ spawned (write_symbol_list E c t) w = [(nm_cmd c t, (nm_answer E c t w).2)])
  /\ (localize_hidden c = true ->
      hidden_pass c (objdump_answer E c t w).1 = hidden_symbols (objdump_answer E c t w).1
      /\ spawned (write_symbol_list E c t) w
         = [(objdump_cmd c t, 0%Z); (nm_cmd c t, (nm_answer E c t w).2)]).
Proof.
  intros H. unfold spawned. rewrite write_symbol_list_eq. cbv zeta.
  assert (Hb : localize_hidden c && negb ((objdump_answer E c t w).2 =? 0)%Z = false).
  { destruct H as [->| ->]; [reflexivity|]. apply andb_false_r. }
  rewrite Hb. simpl fs. simpl procs. rewrite lookup_insert_eq, drop_app_length.
  split; [reflexivity|]. unfold hidden_pass. split; intros Hl; rewrite Hl.
  - split; reflexivity.
  - split; [reflexivity|]. rewrite Hl in H. destruct H as [H|H]; [discriminate|].
    rewrite H. reflexivity.
Qed.

Lemma symbol_list_is_hidden_then_global_witness :
  (objdump_answer Demo.works Demo.conf Demo.temp_dir Demo.world).2 = 0%Z
  /\ fs (write_symbol_list Demo.works Demo.conf Demo.temp_dir Demo.world).2
       !! symbol_list_path Demo.conf Demo.temp_dir
     = Some (File (render (["my_api_init"] ++ ["internal_helper"; "internal_helper"]))).
Proof.
  split; [reflexivity|].
  destruct (symbol_list_is_hidden_then_global Demo.works Demo.conf Demo.temp_dir Demo.world)
    as [H _].
  - right. reflexivity.
  - etransitivity; [exact H|]. vm_compute. reflexivity.
Defined.

(** ** Exit statuses *)

(** C7.  [run] raises [CalledProcessError] with the exit status and the
    command exactly when the child exits with a non-zero status, and
    returns normally when the status is zero.  The two generators do the
    same with their child, after the loop has consumed every name of
    the output: the loop body sees all of them whatever the status is,
    and the error, if any, comes after the last of them.  In the [with]
    block of [main], when [objdump] exits with a non-zero status every
    name of the hidden-symbol pass is in the file, the error is raised,
    and [nm] is not started. *)
Theorem nonzero_exit_raises (E : Env) (args : list string) (p o : string)
    (body : string -> M unit) (w : World) :
  let status (code : Z) (cmd : list string) : result unit :=
    if (code =? 0)%Z then Ok tt else Raise (CalledProcessError code cmd) in
  let logged (cmd : list string) (code : Z) : World :=
    mkWorld (fs w) (VERBOSE w) (stderr w) (procs w ++ [(cmd, code)]) in
  (forall code cmd,
     (status code cmd = Ok tt <-> code = 0%Z)
     /\ (forall e, status code cmd = Raise e <->
                   code <> 0%Z /\ e = CalledProcessError code cmd))
  /\ (run E args w).1 = status (child E args (fs w)).1 args
  /\ (let cmd := [p; "-t"; o] in
      let a := child_stdout E cmd (fs w) in
      iter_hidden_symbols E p o body w
      = match for_each (hidden_symbols a.1) body (logged cmd a.2) with
        | (Ok _, w') => (status a.2 cmd, w')
        | (Raise e, w') => (Raise e, w')
        end)
  /\ (let cmd := [p; "--defined-only"; "--extern-only"; "--print-file-name"; o] in
      let a := child_stdout E cmd (fs w) in
      iter_global_symbols E p o body w
      = match for_each (global_symbols a.1) body (logged cmd a.2) with
        | (Ok _, w') => (status a.2 cmd, w')
        | (Raise e, w') => (Raise e, w')
        end)
  /\ (forall (c : Config) (t : string),
        let a := objdump_answer E c t w in
        localize_hidden c = true -> a.2 <> 0%Z ->
        write_symbol_list E c t w
        = (Raise (CalledProcessError a.2 (objdump_cmd c t)),
           mkWorld (<[symbol_list_path c t := File (render (hidden_symbols a.1))]> (fs w))
                   (VERBOSE w) (stderr w)
                   (procs w ++ [(objdump_cmd c t, a.2)]))).
Proof.
  intros status logged. split; [|split; [|split; [|split]]].
  - intros code cmd. unfold status.
    destruct (code =? 0)%Z eqn:Ez.
    + apply Z.eqb_eq in Ez. split; [split; [intros _; exact Ez|reflexivity]|].
      intros e. split; [discriminate|]. intros [Hn _]. contradiction.
    + apply Z.eqb_neq in Ez. split; [split; [discriminate|contradiction]|].
      intros e. split.
      * intros H. injection H as <-. split; [exact Ez|reflexivity].
      * intros [_ ->]. reflexivity.
  - rewrite run_eq. reflexivity.
  - apply iter_hidden_symbols_eq.
  - apply iter_global_symbols_eq.
  - intros c t a Hl Hnz. rewrite write_symbol_list_eq. cbv zeta. fold a.
    apply Z.eqb_neq in Hnz. rewrite Hl, Hnz. reflexivity.
Qed.

(** ** Determinism of the classification *)

(** C8.  Two runs of the classification that complete, in any two
    worlds and with any tools and paths, write the same names in the
    same order as soon as [objdump] printed the same text in both, [nm]
    printed the same text in both, and [localize_hidden] and the
    keep-global pattern are the same. *)
Theorem classification_deterministic
    (E1 E2 : Env) (c1 c2 : Config) (t1 t2 : string) (w1 w2 : World) :
  localize_hidden c1 = localize_hidden c2 ->
  keep_global_regex c1 = keep_global_regex c2 ->
  (objdump_answer E1 c1 t1 w1).1 = (objdump_answer E2 c2 t2 w2).1 ->
  (nm_answer E1 c1 t1 w1).1 = (nm_answer E2 c2 t2 w2).1 ->
  (write_symbol_list E1 c1 t1 w1).1 = Ok tt ->
  (write_symbol_list E2 c2 t2 w2).1 = Ok tt ->
  (hidden_pass c1 (objdump_answer E1 c1 t1 w1).1
   ++ global_pass c1 (nm_answer E1 c1 t1 w1).1)%list
  = (hidden_pass c2 (objdump_answer E2 c2 t2 w2).1
     ++ global_pass c2 (nm_answer E2 c2 t2 w2).1)%list
  /\ fs (write_symbol_list E1 c1 t1 w1).2 !! symbol_list_path c1 t1
     = Some (File (render (hidden_pass c1 (objdump_answer E1 c1 t1 w1).1
                           ++ global_pass c1 (nm_answer E1 c1 t1 w1).1)))
  /\ fs (write_symbol_list E2 c2 t2 w2).2 !! symbol_list_path c2 t2
     = fs (write_symbol_list E1 c1 t1 w1).2 !! symbol_list_path c1 t1.
Proof.
  intros Hl Hk Hd Hn Hok1 Hok2.
  assert (Hlist : (hidden_pass c1 (objdump_answer E1 c1 t1 w1).1
                   ++ global_pass c1 (nm_answer E1 c1 t1 w1).1)%list
                  = (hidden_pass c2 (objdump_answer E2 c2 t2 w2).1
                     ++ global_pass c2 (nm_answer E2 c2 t2 w2).1)%list).
  { unfold hidden_pass, global_pass, kept_global. rewrite Hl, Hk, Hd, Hn. reflexivity. }
  assert (Hfile : forall E c t w,
             (write_symbol_list E c t w).1 = Ok tt ->
             fs (write_symbol_list E c t w).2 !! symbol_list_path c t
             = Some (File (render (hidden_pass c (objdump_answer E c t w).1
                                   ++ global_pass c (nm_answer E c t w).1)))).
  { intros E c t w. rewrite write_symbol_list_eq. cbv zeta.
    destruct (localize_hidden c && _); simpl; [discriminate|].
    intros _. apply lookup_insert_eq. }
  split; [exact Hlist|]. split; [apply Hfile, Hok1|].
  rewrite (Hfile _ _ _ _ Hok1), (Hfile _ _ _ _ Hok2), Hlist. reflexivity.
Qed.

Lemma classification_deterministic_witness :
  (write_symbol_list Demo.works Demo.conf Demo.temp_dir Demo.world).1 = Ok tt
  /\ (write_symbol_list Demo.ar_fails Demo.conf' "/var/tmp/w" Demo.world').1 = Ok tt
  /\ fs (write_symbol_list Demo.ar_fails Demo.conf' "/var/tmp/w" Demo.world').2
       !! "/var/tmp/w/libother.locals"
     = fs (write_symbol_list Demo.works Demo.conf Demo.temp_dir Demo.world).2
         !! "/tmp/tmpk3_libdispatch/libdispatch.locals".
Proof.
  split; [vm_compute; reflexivity|]. split; [vm_compute; reflexivity|].
  destruct (classification_deterministic
              Demo.works Demo.ar_fails Demo.conf Demo.conf'
              Demo.temp_dir "/var/tmp/w" Demo.world Demo.world'
              eq_refl eq_refl eq_refl eq_refl)
    as (_ & _ & H).
  - vm_compute. reflexivity.
  - vm_compute. reflexivity.
  - exact H.
Defined.

(** ** The link command *)

Lemma procs_bind_head {A B : Type} (m : M A) (f : A -> M B) (w : World)
    (x : list string * Z) (l1 : list (list string * Z)) :
  procs (m w).2 = (procs w ++ x :: l1)%list ->
  (forall a, logs (f a) (m w).2) ->
  exists rest, procs ((m ≫= f) w).2 = (procs w ++ x :: rest)%list.
Proof.
  intros Hm Hf. rewrite bind_eq. destruct (m w) as [[a|e] w1]; simpl in *.
  - destruct (Hf a) as (l & Hl & _). exists (l1 ++ l)%list.
    rewrite Hl, Hm, <- List.app_assoc. reflexivity.
  - exists l1. exact Hm.
Qed.

(** The first child of a run is the link driver. *)
Lemma main_links_first (E : Env) (c : Config) (w : World) :
  let t := temp_dir_of E c w in
  exists rest,
    spawned (main E c) w
    = (link_command E c t, (child E (link_command E c t) (<[t := Dir]> (fs w))).1) :: rest.
Proof.
  intros t. unfold spawned.
  assert (Hb : exists l1, procs (build E c w).2
                 = (procs w ++ (link_command E c t,
                                (child E (link_command E c t) (<[t := Dir]> (fs w))).1)
                            :: l1)%list).
  { unfold build. rewrite bind_eq. cbn [set_verbose]. rewrite bind_eq. cbn [mkdtemp fs].
    cbn [VERBOSE stderr procs]. fold (temp_dir_of E c w). fold t.
    match goal with
    | |- context [(run E (link_command E c t) ≫= ?f) ?w1] =>
        destruct (procs_bind_head (run E (link_command E c t)) f w1
                    (link_command E c t,
                     (child E (link_command E c t) (<[t := Dir]> (fs w))).1) [])
          as [rest Hrest]
    end.
    - rewrite run_eq. reflexivity.
    - intros [].
      repeat (apply logs_bind;
              [first [apply logs_run | apply logs_write_symbol_list]|intros [] _]).
      apply logs_ret.
    - exists rest. exact Hrest. }
  destruct Hb as [l1 Hb]. unfold main.
  destruct (procs_bind_head (build E c) (fun d => publish E c d) w _ l1 Hb)
    as [rest Hrest].
  - intros d. unfold publish. apply logs_bind; [apply logs_run|]. intros [] _.
    apply logs_run.
  - exists rest. rewrite Hrest, drop_app_length. reflexivity.
Qed.

(** C5.  The link command is: the driver and the extra flags, as
    [shlex.split] returns them; the flags that disable the startup
    objects, the default libraries and the build id; one
    relocatable-merge flag, [-Wl,-Ur] for a final link and [-Wl,-r]
    otherwise; the input archives in their order between the
    whole-archive flag and its end; [-o] and the object.  The object is
    an entry of the working directory: its path is the directory, a
    slash (unless the directory's name is empty or already ends with
    one) and a name that is not empty and has no slash, the output name
    with [.o] for extension; it is not the directory itself.  In a run
    that returns normally or ends with the non-zero exit of a child,
    this command is the first child. *)
Theorem link_command_shape (E : Env) (c : Config) (w : World) :
  let t := temp_dir_of E c w in
  let object_name := output_archive_name_wo_ext c +:+ ".o" in
  link_command E c t
  = (([cc c] ++ shlex_split E (cflags c))
     ++ ["-nostartfiles"; "-nodefaultlibs"; "-Wl,--build-id=none"]
     ++ [if is_final_link c then "-Wl,-Ur" else "-Wl,-r"]
     ++ (["-Wl,--whole-archive"] ++ archives c ++ ["-Wl,--no-whole-archive"])
     ++ ["-o"; partial_link_path c t])%list
  /\ partial_link_path c t
     = (if String.eqb t "" || ends_with_slash t then t else t +:+ "/") +:+ object_name
  /\ object_name <> "" /\ no_slash object_name = true
  /\ partial_link_path c t <> t
  /\ String.prefix t (partial_link_path c t) = true
  /\ ((main E c w).1 = Ok tt
      \/ (exists code cmd, (main E c w).1 = Raise (CalledProcessError code cmd)) ->
      exists status rest, spawned (main E c) w = (link_command E c t, status) :: rest).
Proof.
  intros t object_name.
  assert (Hstart : starts_with_slash object_name = false)
    by (apply PathFacts.no_slash_start; [apply PathFacts.wo_ext_no_slash|reflexivity]).
  assert (Hpath : partial_link_path c t
                  = (if String.eqb t "" || ends_with_slash t then t else t +:+ "/")
                    +:+ object_name).
  { unfold partial_link_path, join. fold object_name. rewrite Hstart.
    destruct (String.eqb t "" || ends_with_slash t); [reflexivity|].
    rewrite app_assoc. reflexivity. }
  assert (Hne : object_name <> "").
  { unfold object_name. destruct (output_archive_name_wo_ext c); discriminate. }
  split; [|split; [exact Hpath|split; [exact Hne|split; [|split; [|split]]]]].
  - unfold link_command. repeat (rewrite <- List.app_assoc; simpl). reflexivity.
  - unfold object_name, no_slash. rewrite all_app.
    pose proof (PathFacts.wo_ext_no_slash c) as H. unfold no_slash in H. rewrite H.
    reflexivity.
  - intros H. rewrite Hpath in H. apply (f_equal String.length) in H.
    rewrite length_app in H.
    assert (0 < String.length object_name)%nat
      by (destruct object_name; [congruence|simpl; lia]).
    destruct (String.eqb t "" || ends_with_slash t);
      rewrite ?length_app in H; simpl in H; lia.
  - apply PathFacts.partial_link_path_prefix.
  - intros _. destruct (main_links_first E c w) as [rest H]. eexists _, rest. exact H.
Qed.

Lemma link_command_shape_witness :
  (main Demo.works Demo.conf Demo.world).1 = Ok tt
  /\ exists status rest,
       spawned (main Demo.works Demo.conf) Demo.world
       = (link_command Demo.works Demo.conf Demo.temp_dir, status) :: rest.
Proof.
  assert (Hok : (main Demo.works Demo.conf Demo.world).1 = Ok tt)
    by (vm_compute; reflexivity).
  split; [exact Hok|].
  destruct (link_command_shape Demo.works Demo.conf Demo.world)
    as (_ & _ & _ & _ & _ & _ & H).
  apply H. left. exact Hok.
Defined.

(** * Further properties *)

(** ** The echoed command line *)

Module Echo.

Lemma safechar_plain (c : ascii) :
  safechar c = true -> is_squote c = false /\ is_dquote c = false /\ is_blank c = false.
Proof. destruct c as [[] [] [] [] [] [] [] []]; vm_compute; intros H; repeat split; congruence. Qed.

Lemma sh_bare_safe (a cur rest : string) :
  all safechar a = true ->
  sh_go ShBare cur (a +:+ rest) = sh_go ShBare (cur +:+ a) rest.
Proof.
  revert cur. induction a as [|c a IH]; intros cur Ha.
  - rewrite app_nil_r. reflexivity.
  - cbn [all] in Ha. apply andb_true_iff in Ha as [Hc Ha].
    destruct (safechar_plain c Hc) as (H1 & H2 & H3).
    rewrite app_cons. cbn [sh_go]. rewrite H1, H2, H3, (IH _ Ha).
    unfold snoc. rewrite app_assoc. reflexivity.
Qed.

Lemma sh_out_safe (a rest : string) :
  all safechar a = true -> a <> "" ->
  sh_go ShOut "" (a +:+ rest) = sh_go ShBare a rest.
Proof.
  intros Ha Hne. destruct a as [|c a]; [congruence|].
  cbn [all] in Ha. apply andb_true_iff in Ha as [Hc Ha].
  destruct (safechar_plain c Hc) as (H1 & H2 & H3).
  rewrite app_cons. cbn [sh_go]. rewrite H1, H2, H3.
  rewrite (sh_bare_safe a _ rest Ha). reflexivity.
Qed.

Lemma sh_single_escaped (a cur rest : string) :
  sh_go ShSingle cur (escape_squotes a +:+ "'" +:+ rest)
  = sh_go ShBare (cur +:+ a) rest.
Proof.
  revert cur. induction a as [|c a IH]; intros cur.
  - rewrite app_nil_r. reflexivity.
  - cbn [escape_squotes]. fold (is_squote c).
    destruct (is_squote c) eqn:Ec.
    + apply Ascii.eqb_eq in Ec. subst c.
      rewrite !app_assoc.
      change (sh_go ShSingle cur ("'" +:+ dquote +:+ "'" +:+ dquote +:+ "'" +:+ ?x))
        with (sh_go ShSingle (snoc cur "'"%char) x).
      rewrite IH. unfold snoc. rewrite app_assoc. reflexivity.
    + rewrite app_cons. cbn [sh_go]. rewrite Ec, IH.
      unfold snoc. rewrite app_assoc. reflexivity.
Qed.

Lemma sh_quote (a rest : string) :
  sh_go ShOut "" (quote a +:+ rest) = sh_go ShBare a rest.
Proof.
  unfold quote. destruct (all safechar a) eqn:Ha.
  - destruct (String.eqb_spec a "") as [->|Hne]; [reflexivity|].
    apply sh_out_safe; assumption.
  - rewrite app_assoc.
    change (sh_go ShOut "" ("'" +:+ ?x)) with (sh_go ShSingle "" x).
    rewrite app_assoc. apply sh_single_escaped.
Qed.

(** The line can be cut back into the arguments. *)
Lemma sh_words_shelljoin (args : list string) : sh_words (shelljoin args) = Some args.
Proof.
  unfold sh_words, shelljoin. induction args as [|x [|y l] IH].
  - reflexivity.
  - cbn [map String.concat]. rewrite <- (app_nil_r (quote x)), sh_quote. reflexivity.
  - change (String.concat " " (map quote (x :: y :: l)))
      with (quote x +:+ " " +:+ String.concat " " (map quote (y :: l))).
    rewrite sh_quote.
    change (sh_go ShBare x (" " +:+ ?r))
      with (match sh_go ShOut "" r with Some l' => Some (x :: l') | None => None end).
    rewrite IH. reflexivity.
Qed.

End Echo.

(** X1.  [shelljoin] loses nothing: two argument lists that give the
    same line are the same list, and the line, read as a shell reads
    it, gives the arguments back. *)
Theorem shelljoin_injective (args args' : list string) :
  shelljoin args = shelljoin args' -> args = args'.
Proof.
  intros H. apply (f_equal sh_words) in H.
  rewrite !Echo.sh_words_shelljoin in H. injection H as ->. reflexivity.
Qed.

Lemma shelljoin_injective_witness :
  shelljoin ["cc"; "-DX=a b"; ""] = "cc '-DX=a b' ''"
  /\ ["cc"; "-DX=a b"; ""] = ["cc"; "-DX=a b"; ""].
Proof.
  split; [reflexivity|].
  apply (shelljoin_injective ["cc"; "-DX=a b"; ""] ["cc"; "-DX=a b"; ""]). reflexivity.
Defined.

(** ** Verbosity *)

Module Verbosity.

Lemma quiet_bind {A B : Type} (m : M A) (f : A -> M B) (w : World) :
  echoes_only_if_verbose m w ->
  (forall a w1, echoes_only_if_verbose (f a) w1) ->
  echoes_only_if_verbose (m ≫= f) w.
Proof.
  unfold echoes_only_if_verbose. rewrite bind_eq.
  destruct (m w) as [[a|e] w1]; simpl; intros [Hv Hs] Hf; [|split; assumption].
  destruct (Hf a w1) as [Hv' Hs']. split.
  - rewrite Hv'. exact Hv.
  - intros Hq. rewrite Hs'; [apply Hs, Hq|]. rewrite Hv. exact Hq.
Qed.

Lemma quiet_run (E : Env) (args : list string) (w : World) :
  echoes_only_if_verbose (run E args) w.
Proof.
  unfold echoes_only_if_verbose. rewrite run_eq. cbv zeta. simpl.
  split; [reflexivity|]. intros ->. apply List.app_nil_r.
Qed.

Lemma quiet_write_symbol_list (E : Env) (c : Config) (t : string) (w : World) :
  echoes_only_if_verbose (write_symbol_list E c t) w.
Proof.
  unfold echoes_only_if_verbose. rewrite write_symbol_list_eq. cbv zeta.
  destruct (localize_hidden c && _); simpl; split; reflexivity.
Qed.

(** [main] is [set_verbose] and then the rest. *)
Lemma main_after_set_verbose (E : Env) (c : Config) (w : World) :
  main E c w =
  (temp_dir ← (temp_dir ← mkdtemp E ("_" +:+ output_archive_name_wo_ext c);
               run E (link_command E c temp_dir) ;;
               write_symbol_list E c temp_dir ;;
               run E [objcopy c; "--localize-symbols"; symbol_list_path c temp_dir;
                      partial_link_path c temp_dir] ;;
               run E [ar c; "cr"; join temp_dir (output_archive_name c);
                      partial_link_path c temp_dir] ;;
               run E [ranlib c; join temp_dir (output_archive_name c)] ;;
               mret temp_dir);
   publish E c temp_dir) (set_verbose c w).2.
Proof. reflexivity. Qed.

End Verbosity.

(** X2.  [main] only ever switches [VERBOSE] on: after a run, however it
    ends, the global is on if it was on before or [verbose] was asked
    for; and a run that starts with the global off and does not ask for
    [verbose] prints nothing on the diagnostic stream, whether it
    succeeds or fails. *)
Theorem verbose_is_sticky_and_quiet_is_silent (E : Env) (c : Config) (w : World) :
  VERBOSE (main E c w).2 = verbose c || VERBOSE w
  /\ (verbose c || VERBOSE w = false -> stderr (main E c w).2 = stderr w).
Proof.
  rewrite Verbosity.main_after_set_verbose.
  match goal with
  | |- context [VERBOSE (?m ?w0).2] =>
      assert (H : echoes_only_if_verbose m w0)
  end.
  { apply Verbosity.quiet_bind.
    - apply Verbosity.quiet_bind; [split; reflexivity|]. intros t w1.
      repeat (apply Verbosity.quiet_bind;
              [first [apply Verbosity.quiet_run
                     | apply Verbosity.quiet_write_symbol_list]|intros [] ?]).
      split; reflexivity.
    - intros t w1. unfold publish.
      apply Verbosity.quiet_bind; [apply Verbosity.quiet_run|].
      intros [] w2. apply Verbosity.quiet_run. }
  destruct H as [Hv Hs]. split.
  - rewrite Hv. simpl. destruct (verbose c); reflexivity.
  - intros Hq. rewrite Hs; [reflexivity|]. simpl.
    destruct (verbose c); [discriminate|exact Hq].
Qed.

(** ** The log of a run *)

Module Trace.

Lemma stops_bind {A B : Type} (m : M A) (f : A -> M B) (w : World) :
  stops_at_first_failure m w ->
  (forall a w1, stops_at_first_failure (f a) w1) ->
  stops_at_first_failure (m ≫= f) w.
Proof.
  unfold stops_at_first_failure. rewrite bind_eq.
  destruct (m w) as [[a|e] w1]; simpl.
  - intros (l1 & H1 & Hz) Hf. destruct (Hf a w1) as (l2 & H2 & Hr).
    exists (l1 ++ l2)%list. split; [rewrite H2, H1, List.app_assoc; reflexivity|].
    destruct (f a w1).1 as [b|e].
    + apply Forall_app. split; assumption.
    + destruct Hr as (l0 & cmd & code & -> & Hz0 & Hnz & ->).
      exists (l1 ++ l0)%list, cmd, code.
      split; [rewrite List.app_assoc; reflexivity|].
      split; [apply Forall_app; split; assumption|]. split; [exact Hnz|reflexivity].
  - intros (l1 & H1 & Hr) _. exists l1. split; [exact H1|exact Hr].
Qed.

Lemma stops_silent {A : Type} (m : M A) (w : World) (a : A) (w1 : World) :
  m w = (Ok a, w1) -> procs w1 = procs w -> stops_at_first_failure m w.
Proof.
  intros Hm Hp. exists []. rewrite Hm. simpl.
  split; [rewrite Hp, List.app_nil_r; reflexivity|constructor].
Qed.

Lemma stops_run (E : Env) (args : list string) (w : World) :
  stops_at_first_failure (run E args) w.
Proof.
  unfold stops_at_first_failure. rewrite run_eq. cbv zeta. simpl.
  exists [(args, (child E args (fs w)).1)]. split; [reflexivity|].
  destruct ((child E args (fs w)).1 =? 0)%Z eqn:Ez.
  - apply Z.eqb_eq in Ez. repeat constructor. exact Ez.
  - apply Z.eqb_neq in Ez. exists [], args, (child E args (fs w)).1.
    repeat split; [constructor|exact Ez].
Qed.

Lemma stops_write_symbol_list (E : Env) (c : Config) (t : string) (w : World) :
  stops_at_first_failure (write_symbol_list E c t) w.
Proof.
  unfold stops_at_first_failure. rewrite write_symbol_list_eq. cbv zeta.
  destruct (localize_hidden c && _) eqn:Eh; simpl.
  - apply andb_true_iff in Eh as [_ Eh]. apply negb_true_iff, Z.eqb_neq in Eh.
    eexists. split; [reflexivity|].
    exists [], (objdump_cmd c t), (objdump_answer E c t w).2.
    repeat split; [constructor|exact Eh].
  - assert (Hd : Forall (fun pc : list string * Z => pc.2 = 0%Z)
                   (if localize_hidden c
                    then [(objdump_cmd c t, (objdump_answer E c t w).2)] else [])).
    { destruct (localize_hidden c); [|constructor]. simpl in Eh.
      apply negb_false_iff, Z.eqb_eq in Eh. repeat constructor. exact Eh. }
    eexists. split; [reflexivity|].
    destruct ((nm_answer E c t w).2 =? 0)%Z eqn:Ez.
    + apply Z.eqb_eq in Ez. apply Forall_app. split; [exact Hd|].
      repeat constructor. exact Ez.
    + apply Z.eqb_neq in Ez. eexists _, (nm_cmd c t), (nm_answer E c t w).2.
      repeat split; [exact Hd|exact Ez].
Qed.

Lemma stops_main (E : Env) (c : Config) (w : World) :
  stops_at_first_failure (main E c) w.
Proof.
  unfold main. apply stops_bind.
  - unfold build. apply stops_bind; [eapply stops_silent; reflexivity|]. intros [] w0.
    apply stops_bind; [eapply stops_silent; reflexivity|]. intros t w1.
    repeat (apply stops_bind;
            [first [apply stops_run | apply stops_write_symbol_list]|intros [] ?]).
    eapply stops_silent; reflexivity.
  - intros t w1. unfold publish. apply stops_bind; [apply stops_run|].
    intros [] w2. apply stops_run.
Qed.

Lemma Forall_removelast {A : Type} (P : A -> Prop) (l : list A) :
  Forall P l -> Forall P (removelast l).
Proof.
  induction 1 as [|x l Hx Hl IH]; [constructor|].
  simpl. destruct l; [constructor|]. constructor; assumption.
Qed.

End Trace.

(** X3.  No child is started after one that failed.  In the log of a
    run every child but the last exited with status zero, and all of
    them did when the run returns normally; the run raises
    [CalledProcessError] with a status and a command exactly when that
    command is the last child started and it exited with that status,
    which is not zero. *)
Theorem main_stops_at_first_failure (E : Env) (c : Config) (w : World) :
  Forall (fun pc => pc.2 = 0%Z) (removelast (spawned (main E c) w))
  /\ ((main E c w).1 = Ok tt -> Forall (fun pc => pc.2 = 0%Z) (spawned (main E c) w))
  /\ (forall code cmd,
        (main E c w).1 = Raise (CalledProcessError code cmd) <->
        code <> 0%Z /\ last (spawned (main E c) w) = Some (cmd, code)).
Proof.
  destruct (Trace.stops_main E c w) as (l & Hl & H).
  assert (Hs : spawned (main E c) w = l)
    by (unfold spawned; rewrite Hl; apply drop_app_length).
  rewrite Hs. clear Hs Hl.
  destruct (main E c w).1 as [[]|e].
  - split; [apply Trace.Forall_removelast, H|]. split; [intros _; exact H|].
    intros code cmd. split; [discriminate|]. intros [Hnz Hlast].
    apply last_Some in Hlast. destruct Hlast as [l' ->].
    apply Forall_app in H as [_ H]. inversion H as [|? ? Hz _]. simpl in Hz. congruence.
  - destruct H as (l0 & cmd' & code' & -> & Hz & Hnz & ->).
    split; [rewrite List.removelast_last; exact Hz|]. split; [discriminate|].
    intros code cmd. rewrite last_snoc. split.
    + intros He. injection He as <- <-. split; [exact Hnz|reflexivity].
    + intros [_ He]. injection He as <- <-. reflexivity.
Qed.

Lemma main_stops_at_first_failure_witness :
  exists code cmd,
    last (spawned (main Demo.ar_fails Demo.conf) Demo.world) = Some (cmd, code)
    /\ code <> 0%Z
    /\ (main Demo.ar_fails Demo.conf Demo.world).1 = Raise (CalledProcessError code cmd).
Proof.
  assert (Hl : exists cmd code,
             last (spawned (main Demo.ar_fails Demo.conf) Demo.world) = Some (cmd, code)
             /\ code <> 0%Z)
    by (vm_compute; eexists _, _; split; [reflexivity|discriminate]).
  destruct Hl as (cmd & code & Hl & Hnz).
  exists code, cmd. split; [exact Hl|]. split; [exact Hnz|].
  destruct (main_stops_at_first_failure Demo.ar_fails Demo.conf Demo.world)
    as (_ & _ & H).
  apply H. split; assumption.
Defined.

(** ** A run that succeeds *)

Module Success.

Lemma exactly_bind {A B : Type} (m : M A) (f : A -> M B) (w : World)
    (c1 e1 c2 e2 : list (list string)) :
  runs_exactly m w c1 e1 ->
  (forall a, (m w).1 = Ok a -> runs_exactly (f a) (m w).2 c2 e2) ->
  runs_exactly (m ≫= f) w (c1 ++ c2) (e1 ++ e2).
Proof.
  unfold runs_exactly. rewrite bind_eq.
  destruct (m w) as [[a|e] w1]; simpl; intros H1 H2 [b Hb]; [|discriminate].
  destruct H1 as (Hp & Hv & Hs); [exists a; reflexivity|].
  destruct (H2 a eq_refl) as (Hp' & Hv' & Hs'); [exists b; exact Hb|].
  split; [|split].
  - rewrite Hp', Hp, map_app, List.app_assoc. reflexivity.
  - rewrite Hv'. exact Hv.
  - rewrite Hs', Hs, Hv. destruct (VERBOSE w).
    + rewrite map_app, List.app_assoc. reflexivity.
    + rewrite !List.app_nil_r. reflexivity.
Qed.

Lemma exactly_silent {A : Type} (m : M A) (w : World) :
  procs (m w).2 = procs w -> VERBOSE (m w).2 = VERBOSE w -> stderr (m w).2 = stderr w ->
  runs_exactly m w [] [].
Proof.
  intros Hp Hv Hs _. rewrite Hp, Hv, Hs. simpl.
  destruct (VERBOSE w); rewrite !List.app_nil_r; repeat split.
Qed.

Lemma exactly_run (E : Env) (args : list string) (w : World) :
  runs_exactly (run E args) w [args] [args].
Proof.
  unfold runs_exactly. rewrite run_eq. cbv zeta. simpl. intros [[] H].
  destruct ((child E args (fs w)).1 =? 0)%Z eqn:Ez; [|discriminate].
  apply Z.eqb_eq in Ez. rewrite Ez. repeat split.
Qed.

Lemma exactly_write_symbol_list (E : Env) (c : Config) (t : string) (w : World) :
  runs_exactly (write_symbol_list E c t) w
    ((if localize_hidden c then [objdump_cmd c t] else []) ++ [nm_cmd c t]) [].
Proof.
  unfold runs_exactly. rewrite write_symbol_list_eq. cbv zeta.
  destruct (localize_hidden c && _) eqn:Eh; simpl; intros [[] H]; [discriminate|].
  destruct ((nm_answer E c t w).2 =? 0)%Z eqn:Ez; [|discriminate].
  apply Z.eqb_eq in Ez. rewrite Ez.
  split; [|split; [reflexivity|destruct (VERBOSE w); rewrite List.app_nil_r; reflexivity]].
  destruct (localize_hidden c); simpl in *; [|reflexivity].
  apply negb_false_iff, Z.eqb_eq in Eh. rewrite Eh. reflexivity.
Qed.

Lemma exactly_main_after_set_verbose (E : Env) (c : Config) (w0 : World) :
  let t := mkdtemp_name E ("_" +:+ output_archive_name_wo_ext c) (fs w0) in
  runs_exactly
    (temp_dir ← (temp_dir ← mkdtemp E ("_" +:+ output_archive_name_wo_ext c);
                 run E (link_command E c temp_dir) ;;
                 write_symbol_list E c temp_dir ;;
                 run E [objcopy c; "--localize-symbols"; symbol_list_path c temp_dir;
                        partial_link_path c temp_dir] ;;
                 run E [ar c; "cr"; join temp_dir (output_archive_name c);
                        partial_link_path c temp_dir] ;;
                 run E [ranlib c; join temp_dir (output_archive_name c)] ;;
                 mret temp_dir);
     publish E c temp_dir) w0
    (all_children E c t) (run_commands E c t).
Proof.
  intros t.
  assert (Hb : runs_exactly
            (temp_dir ← mkdtemp E ("_" +:+ output_archive_name_wo_ext c);
             run E (link_command E c temp_dir) ;;
             write_symbol_list E c temp_dir ;;
             run E [objcopy c; "--localize-symbols"; symbol_list_path c temp_dir;
                    partial_link_path c temp_dir] ;;
             run E [ar c; "cr"; join temp_dir (output_archive_name c);
                    partial_link_path c temp_dir] ;;
             run E [ranlib c; join temp_dir (output_archive_name c)] ;;
             mret temp_dir) w0
            ([] ++ [link_command E c t]
                ++ ((if localize_hidden c then [objdump_cmd c t] else []) ++ [nm_cmd c t])
                ++ [[objcopy c; "--localize-symbols"; symbol_list_path c t;
                     partial_link_path c t]]
                ++ [[ar c; "cr"; join t (output_archive_name c); partial_link_path c t]]
                ++ [[ranlib c; join t (output_archive_name c)]] ++ [])%list
            ([] ++ [link_command E c t] ++ []
                ++ [[objcopy c; "--localize-symbols"; symbol_list_path c t;
                     partial_link_path c t]]
                ++ [[ar c; "cr"; join t (output_archive_name c); partial_link_path c t]]
                ++ [[ranlib c; join t (output_archive_name c)]] ++ [])%list).
  { apply exactly_bind; [apply exactly_silent; reflexivity|].
    intros a Ha. injection Ha as <-. fold t.
    apply exactly_bind; [apply exactly_run|]. intros [] _.
    apply exactly_bind; [apply exactly_write_symbol_list|]. intros [] _.
    apply exactly_bind; [apply exactly_run|]. intros [] _.
    apply exactly_bind; [apply exactly_run|]. intros [] _.
    apply exactly_bind; [apply exactly_run|]. intros [] _.
    apply exactly_silent; reflexivity. }
  assert (Hc : all_children E c t
               = (([] ++ [link_command E c t]
                   ++ ((if localize_hidden c then [objdump_cmd c t] else [])
                       ++ [nm_cmd c t])
                   ++ [[objcopy c; "--localize-symbols"; symbol_list_path c t;
                        partial_link_path c t]]
                   ++ [[ar c; "cr"; join t (output_archive_name c);
                        partial_link_path c t]]
                   ++ [[ranlib c; join t (output_archive_name c)]] ++ [])
                  ++ ([["mv"; join t (output_archive_name c); output c]]
                      ++ [["rm"; "-fr"; t]]))%list)
    by (unfold all_children; destruct (localize_hidden c); reflexivity).
  assert (He : run_commands E c t
               = (([] ++ [link_command E c t] ++ []
                   ++ [[objcopy c; "--localize-symbols"; symbol_list_path c t;
                        partial_link_path c t]]
                   ++ [[ar c; "cr"; join t (output_archive_name c);
                        partial_link_path c t]]
                   ++ [[ranlib c; join t (output_archive_name c)]] ++ [])
                  ++ ([["mv"; join t (output_archive_name c); output c]]
                      ++ [["rm"; "-fr"; t]]))%list)
    by reflexivity.
  rewrite Hc, He.
  apply exactly_bind; [exact Hb|].
  intros d Hd.
  assert (d = t) as ->.
  { apply bind_Ok in Hd. destruct Hd as (t' & w1 & H1 & Hd).
    injection H1 as <- _. fold t in Hd.
    do 5 (apply bind_Ok in Hd; destruct Hd as ([] & ? & _ & Hd)).
    injection Hd as <-. reflexivity. }
  unfold publish. apply exactly_bind; [apply exactly_run|]. intros [] _.
  apply exactly_run.
Qed.

End Success.

(** X4.  A run that returns normally has started, in this order and
    each with status zero: the link driver, [objdump] (only when
    [localize_hidden] is on), [nm], the binary editor, the archiver, the
    indexer, [mv] and [rm -fr], and no other child.  The object the
    link driver writes is the one [objdump], [nm], the binary editor and
    the archiver are given; the symbol list the binary editor is given
    is the file the [with] block wrote; the archive the archiver makes
    is the one indexed and then moved. *)
Theorem successful_run_children (E : Env) (c : Config) (w : World) :
  (main E c w).1 = Ok tt ->
  spawned (main E c) w
  = map (fun cmd => (cmd, 0%Z)) (all_children E c (temp_dir_of E c w)).
Proof.
  intros H. unfold spawned.
  destruct (Success.exactly_main_after_set_verbose E c (set_verbose c w).2) as (Hp & _).
  - exists tt. exact H.
  - rewrite Verbosity.main_after_set_verbose, Hp. apply drop_app_length.
Qed.

Lemma successful_run_children_witness :
  (main Demo.works Demo.conf Demo.world).1 = Ok tt
  /\ map fst (spawned (main Demo.works Demo.conf) Demo.world)
     = all_children Demo.works Demo.conf "/tmp/tmpk3_libdispatch".
Proof.
  split; [vm_compute; reflexivity|].
  rewrite (successful_run_children Demo.works Demo.conf Demo.world);
    [|vm_compute; reflexivity].
  rewrite map_map. simpl fst. apply map_id.
Defined.

(** X5.  In a verbose run that returns normally the diagnostic stream
    gains one line per command given to [run], a plus sign, a space and
    the command as [shelljoin] writes it, in the order the commands are
    run: six lines.  The two children read through a pipe, [objdump]
    and [nm], are not echoed. *)
Theorem successful_run_echo (E : Env) (c : Config) (w : World) :
  (main E c w).1 = Ok tt ->
  stderr (main E c w).2
  = (stderr w ++ (if verbose c || VERBOSE w
                  then map echo_line (run_commands E c (temp_dir_of E c w))
                  else []))%list.
Proof.
  intros H.
  destruct (Success.exactly_main_after_set_verbose E c (set_verbose c w).2) as (_ & _ & Hs).
  - exists tt. exact H.
  - rewrite Verbosity.main_after_set_verbose, Hs. simpl.
    destruct (verbose c); reflexivity.
Qed.

Lemma successful_run_echo_witness :
  (main Demo.works Demo.conf_verbose Demo.world).1 = Ok tt
  /\ nth 4 (stderr (main Demo.works Demo.conf_verbose Demo.world).2) ""
     = "+ mv /tmp/tmpk3_libdispatch/libdispatch.a /out/libdispatch.a"
  /\ length (stderr (main Demo.works Demo.conf_verbose Demo.world).2) = 6%nat.
Proof.
  split; [vm_compute; reflexivity|].
  rewrite (successful_run_echo Demo.works Demo.conf_verbose Demo.world);
    [|vm_compute; reflexivity].
  split; reflexivity.
Defined.

(** ** The symbol list file *)

Module SymbolFile.

Lemma word_not_newline (ch : ascii) : is_word ch = true -> is_newline ch = false.
Proof. destruct ch as [[] [] [] [] [] [] [] []]; vm_compute; congruence. Qed.

(** A name and its newline come back as one line. *)
Lemma readlines_name (name rest : string) :
  all is_word name = true ->
  readlines (name +:+ nl +:+ rest) = (name +:+ nl) :: readlines rest.
Proof.
  induction name as [|ch name IH]; intros Hw; [reflexivity|].
  cbn [all] in Hw. apply andb_true_iff in Hw as [Hc Hw].
  rewrite !app_cons. cbn [readlines]. rewrite (word_not_newline _ Hc), (IH Hw).
  reflexivity.
Qed.

Lemma readlines_render (names : list string) :
  Forall (fun name => all is_word name = true) names ->
  readlines (render names) = map (fun name => name +:+ nl) names.
Proof.
  induction 1 as [|name names Hw _ IH]; [reflexivity|].
  cbn [render map]. rewrite app_assoc, (readlines_name _ _ Hw), IH. reflexivity.
Qed.

End SymbolFile.

(** X6.  Writing the symbol list changes one file and nothing else:
    whatever [objdump] and [nm] print and however they exit, every other
    path is as before, the diagnostic stream and [VERBOSE] are as
    before, and the symbol list path holds a regular file written from
    scratch, whose lines are names of the two passes. *)
Theorem classification_writes_one_file (E : Env) (c : Config) (t : string) (w : World) :
  (forall p, p <> symbol_list_path c t ->
             fs (write_symbol_list E c t w).2 !! p = fs w !! p)
  /\ (exists names,
        fs (write_symbol_list E c t w).2 !! symbol_list_path c t
        = Some (File (render names))
        /\ Forall (fun name => name <> "" /\ all is_word name = true) names)
  /\ stderr (write_symbol_list E c t w).2 = stderr w
  /\ VERBOSE (write_symbol_list E c t w).2 = VERBOSE w.
Proof.
  split; [intros p Hp; apply (keeps_write_symbol_list E c t p w Hp)|].
  rewrite write_symbol_list_eq. cbv zeta.
  destruct (localize_hidden c && _) eqn:Eh; simpl; (split; [|split; reflexivity]).
  - exists (hidden_pass c (objdump_answer E c t w).1).
    apply andb_true_iff in Eh as [Eh _]. unfold hidden_pass. rewrite Eh.
    split; [apply lookup_insert_eq|].
    pose proof (symbol_list_tokens c (objdump_answer E c t w).1 "") as H.
    unfold hidden_pass, global_pass in H. rewrite Eh in H. simpl in H.
    rewrite List.app_nil_r in H. exact H.
  - eexists. split; [apply lookup_insert_eq|]. apply symbol_list_tokens.
Qed.

(** X7.  The symbol list file reads back as the names: when the
    hidden-symbol pass does not fail, cutting the file into lines gives
    the names of the two passes, each followed by a newline, in order;
    no name is split over two lines and no line is empty. *)
Theorem symbol_list_reads_back (E : Env) (c : Config) (t : string) (w : World) :
  localize_hidden c = false \/ (objdump_answer E c t w).2 = 0%Z ->
  exists data,
    fs (write_symbol_list E c t w).2 !! symbol_list_path c t = Some (File data)
    /\ readlines data
       = map (fun name => name +:+ nl)
             (hidden_pass c (objdump_answer E c t w).1
              ++ global_pass c (nm_answer E c t w).1).
Proof.
  intros H. eexists. split.
  - rewrite write_symbol_list_eq. cbv zeta.
    assert (Hb : localize_hidden c && negb ((objdump_answer E c t w).2 =? 0)%Z = false).
    { destruct H as [->| ->]; [reflexivity|]. apply andb_false_r. }
    rewrite Hb. simpl. apply lookup_insert_eq.
  - apply SymbolFile.readlines_render. apply symbol_list_word.
Qed.

Lemma symbol_list_reads_back_witness :
  (objdump_answer Demo.works Demo.conf Demo.temp_dir Demo.world).2 = 0%Z
  /\ exists data,
       fs (write_symbol_list Demo.works Demo.conf Demo.temp_dir Demo.world).2
         !! symbol_list_path Demo.conf Demo.temp_dir = Some (File data)
       /\ readlines data
          = ["my_api_init" +:+ nl; "internal_helper" +:+ nl; "internal_helper" +:+ nl].
Proof.
  split; [reflexivity|].
  destruct (symbol_list_reads_back Demo.works Demo.conf Demo.temp_dir Demo.world)
    as (data & Hd & Hr); [right; reflexivity|].
  exists data. split; [exact Hd|]. rewrite Hr. vm_compute. reflexivity.
Defined.

(** ** The files of the working directory *)

Module WorkFiles.

Lemma app_neq_self (t y : string) : y <> "" -> t +:+ y <> t.
Proof.
  intros Hy H. apply (f_equal String.length) in H. rewrite length_app in H.
  destruct y; [congruence|]. simpl in H. lia.
Qed.

Lemma join_neq_dir (t x : string) :
  x <> "" -> starts_with_slash x = false -> join t x <> t.
Proof.
  intros Hx Hs. unfold join. rewrite Hs.
  destruct (String.eqb t "" || ends_with_slash t).
  - apply app_neq_self, Hx.
  - apply app_neq_self. discriminate.
Qed.

Lemma join_inj (t x y : string) :
  starts_with_slash x = false -> starts_with_slash y = false ->
  join t x = join t y -> x = y.
Proof.
  intros Hx Hy. unfold join. rewrite Hx, Hy.
  destruct (String.eqb t "" || ends_with_slash t); intros H.
  - apply (String.app_inj t) in H. exact H.
  - apply (String.app_inj t) in H. apply (String.app_inj "/") in H. exact H.
Qed.

Lemma splitext_app (p : string) : (splitext p).1 +:+ (splitext p).2 = p.
Proof.
  unfold splitext. pose proof (PathFacts.cut_last_slash_app p) as Hcut.
  destruct (cut_last_slash p) as [h tl]. simpl in Hcut.
  destruct (cut_last_dot tl) as [[r e]|] eqn:E; [|apply app_nil_r].
  destruct (all is_dot r); [apply app_nil_r|]. simpl.
  apply PathFacts.cut_last_dot_app in E. subst tl. rewrite app_assoc. symmetry. exact Hcut.
Qed.

Section Names.
Variable c : Config.
Variable t : string.

Lemma object_name_start : starts_with_slash (output_archive_name_wo_ext c +:+ ".o") = false.
Proof. apply PathFacts.no_slash_start; [apply PathFacts.wo_ext_no_slash|reflexivity]. Qed.

Lemma list_name_start :
  starts_with_slash (output_archive_name_wo_ext c +:+ ".locals") = false.
Proof. apply PathFacts.no_slash_start; [apply PathFacts.wo_ext_no_slash|reflexivity]. Qed.

Lemma archive_name_start : starts_with_slash (output_archive_name c) = false.
Proof.
  rewrite <- (app_nil_r (output_archive_name c)).
  apply PathFacts.no_slash_start; [apply PathFacts.output_archive_name_no_slash|reflexivity].
Qed.

Lemma suffixed_nonempty (x y : string) : y <> "" -> x +:+ y <> "".
Proof. intros Hy. destruct x; [exact Hy|discriminate]. Qed.

Lemma partial_link_path_neq_dir : partial_link_path c t <> t.
Proof. apply join_neq_dir; [apply suffixed_nonempty; discriminate|apply object_name_start]. Qed.

Lemma symbol_list_path_neq_dir : symbol_list_path c t <> t.
Proof. apply join_neq_dir; [apply suffixed_nonempty; discriminate|apply list_name_start]. Qed.

End Names.

End WorkFiles.

(** X8.  Nothing cleans up after a failure.  The working directory made
    by [mkdtemp] is still there when [build] ends, and when a step
    before the move raises, [main] ends there too: no further child is
    started, [rm -fr] in particular, and the directory stays.  Assumed:
    each of the four tools writes only the file it is asked to produce,
    and the output path has a last component. *)
Theorem working_directory_left_on_failure (E : Env) (c : Config) (w : World) :
  writes_own_output E c ->
  output_archive_name c <> "" ->
  fs (build E c w).2 !! temp_dir_of E c w = Some Dir
  /\ forall e, (build E c w).1 = Raise e ->
       fs (main E c w).2 !! temp_dir_of E c w = Some Dir
       /\ spawned (main E c) w = spawned (build E c) w.
Proof.
  intros [Hcc Hobjcopy Har Hranlib] Hname.
  set (t := temp_dir_of E c w).
  assert (Hb : fs (build E c w).2 !! t = Some Dir).
  { unfold build. rewrite bind_eq. cbn [set_verbose]. rewrite bind_eq. cbn [mkdtemp fs].
    fold (temp_dir_of E c w). fold t.
    match goal with
    | |- fs (?m ?w1).2 !! t = _ =>
        assert (Hk : keeps t m w1); [|unfold keeps in Hk; rewrite Hk; apply lookup_insert_eq]
    end.
    assert (Hstaged : join t (output_archive_name c) <> t)
      by (apply WorkFiles.join_neq_dir; [exact Hname|apply WorkFiles.archive_name_start]).
    apply keeps_bind.
    { apply keeps_run. intros f. destruct (link_command_ends E c t) as [flags ->].
      apply Hcc. intros H. symmetry in H. revert H.
      apply WorkFiles.partial_link_path_neq_dir. }
    intros [] _. apply keeps_bind.
    { apply keeps_write_symbol_list. intros H. symmetry in H. revert H.
      apply WorkFiles.symbol_list_path_neq_dir. }
    intros [] _. apply keeps_bind.
    { apply keeps_run. intros f. apply Hobjcopy. intros H. symmetry in H. revert H.
      apply WorkFiles.partial_link_path_neq_dir. }
    intros [] _. apply keeps_bind.
    { apply keeps_run. intros f. apply Har. congruence. }
    intros [] _. apply keeps_bind.
    { apply keeps_run. intros f. apply Hranlib. congruence. }
    intros [] _. apply keeps_ret. }
  split; [exact Hb|]. intros e He.
  assert (Hm : main E c w = (Raise e, (build E c w).2)).
  { unfold main. rewrite bind_eq. destruct (build E c w) as [[d|e'] w1]; simpl in He.
    - discriminate.
    - injection He as ->. reflexivity. }
  unfold spawned. rewrite Hm. split; [exact Hb|reflexivity].
Qed.

Lemma working_directory_left_on_failure_witness :
  (build Demo.ar_fails Demo.conf Demo.world).1
  = Raise (CalledProcessError 1
             ["ar"; "cr"; "/tmp/tmpk3_libdispatch/libdispatch.a";
              "/tmp/tmpk3_libdispatch/libdispatch.o"])
  /\ fs (main Demo.ar_fails Demo.conf Demo.world).2 !! "/tmp/tmpk3_libdispatch" = Some Dir.
Proof.
  split; [vm_compute; reflexivity|].
  destruct (working_directory_left_on_failure Demo.ar_fails Demo.conf Demo.world)
    as [_ H].
  - apply DemoFacts.writes_own_output_demo.
  - vm_compute. discriminate.
  - destruct (H (CalledProcessError 1
                   ["ar"; "cr"; "/tmp/tmpk3_libdispatch/libdispatch.a";
                    "/tmp/tmpk3_libdispatch/libdispatch.o"])) as [H' _].
    + vm_compute. reflexivity.
    + exact H'.
Defined.

(** X9.  The object and the symbol list never share a path.  The staged
    archive shares the object's path exactly when the output name has
    the extension [.o], and the symbol list's path exactly when it has
    the extension [.locals]: with any other output name the three files
    of the working directory are distinct. *)
Theorem working_files_collide_only_on_extension (c : Config) (t : string) :
  partial_link_path c t <> symbol_list_path c t
  /\ (join t (output_archive_name c) = partial_link_path c t
      <-> (splitext (output_archive_name c)).2 = ".o")
  /\ (join t (output_archive_name c) = symbol_list_path c t
      <-> (splitext (output_archive_name c)).2 = ".locals").
Proof.
  pose proof (WorkFiles.splitext_app (output_archive_name c)) as Hn.
  fold (output_archive_name_wo_ext c) in Hn.
  split; [|split].
  - unfold partial_link_path, symbol_list_path. intros H.
    apply WorkFiles.join_inj in H;
      [|apply WorkFiles.object_name_start|apply WorkFiles.list_name_start].
    apply (String.app_inj (output_archive_name_wo_ext c)) in H. discriminate.
  - unfold partial_link_path. split.
    + intros H. apply WorkFiles.join_inj in H;
        [|apply WorkFiles.archive_name_start|apply WorkFiles.object_name_start].
      rewrite <- Hn in H at 1.
      apply (String.app_inj (output_archive_name_wo_ext c)) in H. exact H.
    + intros H. rewrite H in Hn. rewrite Hn. reflexivity.
  - unfold symbol_list_path. split.
    + intros H. apply WorkFiles.join_inj in H;
        [|apply WorkFiles.archive_name_start|apply WorkFiles.list_name_start].
      rewrite <- Hn in H at 1.
      apply (String.app_inj (output_archive_name_wo_ext c)) in H. exact H.
    + intros H. rewrite H in Hn. rewrite Hn. reflexivity.
Qed.

(** ** What the global-symbol pass takes from a line *)

Module Longest.

(** A trailing run of word characters extends to the left up to a
    character that is not one, or to the start of the line. *)
Lemma longest_token (pre sym : string) (prev : option ascii) :
  sym <> "" -> all is_word sym = true -> word_before prev = false ->
  exists pre' sym',
    pre +:+ sym = pre' +:+ sym' /\ sym' <> "" /\ all is_word sym' = true
    /\ word_before (last_char prev pre') = false.
Proof.
  intros Hne Hw. revert prev. induction pre as [|ch pre IH]; intros prev Hp.
  - exists "", sym. repeat split; assumption.
  - destruct (all is_word (String ch pre)) eqn:Ea.
    + exists "", (String ch pre +:+ sym). repeat split; [discriminate| |exact Hp].
      rewrite all_app, Ea, Hw. reflexivity.
    + destruct (is_word ch) eqn:Ec.
      * destruct (IH None eq_refl) as (pre' & sym' & He & Hne' & Hw' & Hb).
        destruct pre' as [|c2 q].
        -- exfalso. change ("" +:+ sym') with sym' in He. subst sym'.
           rewrite all_app in Hw'. apply andb_true_iff in Hw' as [Hpre _].
           cbn [all] in Ea. rewrite Ec, Hpre in Ea. discriminate.
        -- exists (String ch (String c2 q)), sym'.
           split; [rewrite !app_cons, He; reflexivity|].
           split; [exact Hne'|]. split; [exact Hw'|exact Hb].
      * destruct (IH (Some ch)) as (pre' & sym' & He & Hne' & Hw' & Hb); [exact Ec|].
        exists (String ch pre'), sym'.
        split; [rewrite !app_cons, He; reflexivity|].
        split; [exact Hne'|]. split; [exact Hw'|exact Hb].
Qed.

End Longest.

(** X10.  From a line of [nm] the global-symbol pass takes the longest
    run of word characters the line ends with: a name is yielded exactly
    when it is a non-empty run of word characters that ends the line (up
    to the newline) and has no word character before it; and a line is
    skipped exactly when it does not end with a word character. *)
Theorem global_pass_takes_longest_trailing_token (line : string) :
  (forall symbol,
     global_symbol line = Some symbol <->
     symbol <> "" /\ all is_word symbol = true
     /\ exists pre eol,
          line = pre +:+ symbol +:+ eol /\ at_eol eol = true
          /\ word_before (last_char None pre) = false)
  /\ (global_symbol line = None <-> forall s, ~ trailing_token line s).
Proof.
  assert (Hsome : forall symbol,
     global_symbol line = Some symbol <->
     symbol <> "" /\ all is_word symbol = true
     /\ exists pre eol,
          line = pre +:+ symbol +:+ eol /\ at_eol eol = true
          /\ word_before (last_char None pre) = false).
  { intros symbol. unfold global_symbol. split.
    - destruct (re_search global_re line) as [m|] eqn:Em; [|discriminate].
      destruct (global_re_inv _ _ Em) as (pre & sym & b & -> & Hne & Hw & Hb & Hp & ->).
      simpl. intros H. injection H as <-.
      split; [exact Hne|]. split; [exact Hw|]. exists pre, b. repeat split; assumption.
    - intros (Hne & Hw & pre & b & -> & Hb & Hp).
      rewrite (global_re_app pre symbol b Hne Hw Hb Hp). reflexivity. }
  split; [exact Hsome|]. split.
  - intros Hn s (Hne & Hw & pre & b & -> & Hb).
    destruct (Longest.longest_token pre s None Hne Hw eq_refl)
      as (pre' & s' & He & Hne' & Hw' & Hp').
    assert (Hy : global_symbol (pre +:+ s +:+ b) = Some s').
    { apply Hsome. split; [exact Hne'|]. split; [exact Hw'|].
      exists pre', b. split; [|split; assumption].
      rewrite <- !app_assoc, He. reflexivity. }
    rewrite Hy in Hn. discriminate.
  - intros Hno. destruct (global_symbol line) as [s|] eqn:E; [|reflexivity].
    exfalso. apply (Hno s). apply global_symbol_Some, E.
Qed.

(** ** Output that comes in pieces *)

Module Pieces.

Lemma readlines_nonempty (text : string) : text <> "" -> readlines text <> [].
Proof.
  destruct text as [|ch text]; [congruence|]. intros _. cbn [readlines].
  destruct (is_newline ch); [discriminate|]. destruct (readlines text); discriminate.
Qed.

Lemma readlines_app (t1 t2 : string) :
  ends_line t1 = true -> readlines (t1 +:+ t2) = (readlines t1 ++ readlines t2)%list.
Proof.
  induction t1 as [|ch t1 IH]; intros He; [reflexivity|].
  rewrite app_cons. cbn [readlines].
  destruct t1 as [|c2 q].
  - unfold ends_line in He. simpl in He. rewrite He. reflexivity.
  - assert (He' : ends_line (String c2 q) = true) by exact He.
    rewrite (IH He').
    destruct (is_newline ch); [reflexivity|].
    pose proof (readlines_nonempty (String c2 q)) as Hn.
    destruct (readlines (String c2 q)) as [|l ls]; [exfalso; apply Hn; [discriminate|reflexivity]|].
    reflexivity.
Qed.

End Pieces.

(** X11.  What the two passes yield follows the text line by line: when
    a first piece of output ends where a line ends, the names yielded
    for it followed by the names yielded for the rest are the names
    yielded for the whole.  More output never changes or removes a
    name already yielded for complete lines. *)
Theorem passes_follow_the_lines (t1 t2 : string) :
  ends_line t1 = true ->
  hidden_symbols (t1 +:+ t2) = (hidden_symbols t1 ++ hidden_symbols t2)%list
  /\ global_symbols (t1 +:+ t2) = (global_symbols t1 ++ global_symbols t2)%list.
Proof.
  intros He. unfold hidden_symbols, global_symbols.
  rewrite (Pieces.readlines_app t1 t2 He), !omap_app. split; reflexivity.
Qed.

Lemma passes_follow_the_lines_witness :
  ends_line ("a.o:0000 T foo" +:+ nl) = true
  /\ global_symbols (("a.o:0000 T foo" +:+ nl) +:+ "b.o:0000 T bar") = ["foo"; "bar"].
Proof.
  split; [reflexivity|].
  destruct (passes_follow_the_lines ("a.o:0000 T foo" +:+ nl) "b.o:0000 T bar" eq_refl)
    as [_ H].
  rewrite H. reflexivity.
Defined.

(** ** Defaults from the environment *)

Lemma toolchain_never_required (environ : gmap string string) :
  Forall (fun da : string * Action =>
            act_required da.2 = false /\ is_Some (act_default da.2))
         (toolchain_actions environ).
Proof.
  unfold toolchain_actions, toolchain_options, EnvDefault_init. simpl.
  repeat (constructor;
          [simpl; match goal with
                  | |- context [environ !! ?k] => destruct (environ !! k)
                  end; split; eauto|]).
  constructor.
Qed.

(** X12.  An option declared with [EnvDefault] is required only when it
    was declared required and ends without a default; it ends without a
    default only when none was given and the variable is not named or
    not set; a variable that is named and set wins over the default
    given, even when it is set to the empty string.  Hence none of the
    seven toolchain options is ever required, and each has a default in
    every environment. *)
Theorem env_default_resolution (environ : gmap string string) (envvar : string)
    (required : bool) (default : option string) :
  let a := EnvDefault_init environ envvar required default in
  (act_required a = true <-> required = true /\ act_default a = None)
  /\ (act_default a = None <->
      default = None /\ (envvar = "" \/ environ !! envvar = None))
  /\ (forall v, envvar <> "" -> environ !! envvar = Some v -> act_default a = Some v)
  /\ ((envvar = "" \/ environ !! envvar = None) -> act_default a = default)
  /\ Forall (fun da => act_required da.2 = false /\ is_Some (act_default da.2))
            (toolchain_actions environ).
Proof.
  intros a. subst a.
  split; [|split; [|split; [|split; [|apply toolchain_never_required]]]];
    unfold EnvDefault_init;
    destruct (String.eqb_spec envvar "") as [->|Hne]; simpl;
    try (destruct (environ !! envvar) as [v0|] eqn:Ev); simpl.
  - destruct required, default; simpl; intuition congruence.
  - destruct required; simpl; intuition congruence.
  - destruct required, default; simpl; intuition congruence.
  - intuition congruence.
  - intuition congruence.
  - intuition congruence.
  - congruence.
  - congruence.
  - congruence.
  - reflexivity.
  - intuition congruence.
  - reflexivity.
Qed.

(** ** The default keep-global pattern *)

(** The pattern [.*] of line 172 matches every name, at its start. *)
Lemma any_text_matches (symbol : string) :
  re_search (Star (Cls AnyChar)) symbol <> None.
Proof.
  unfold re_search.
  apply (ReFacts.search_from_app (Star (Cls AnyChar)) None "" symbol).
  change (match_at (Star (Cls AnyChar)) (last_char None "") symbol accept [])
    with (star_loop (match_at (Cls AnyChar)) (S (String.length symbol)) None
            ("" +:+ symbol) accept []).
  apply ReFacts.star_cls_app; [reflexivity|simpl; lia|discriminate].
Qed.

(** X13.  With the keep-global pattern left at its default, [.*], the
    global-symbol pass demotes nothing, whatever [nm] prints: the symbol
    list holds the names of the hidden-symbol pass and no other, and is
    empty when [localize_hidden] is off. *)
Theorem default_pattern_keeps_every_global (E : Env) (c : Config) (t : string) (w : World) :
  keep_global_regex c = Star (Cls AnyChar) ->
  (forall nm_text, global_pass c nm_text = [])
  /\ (localize_hidden c = false \/ (objdump_answer E c t w).2 = 0%Z ->
      fs (write_symbol_list E c t w).2 !! symbol_list_path c t
      = Some (File (render (hidden_pass c (objdump_answer E c t w).1))))
  /\ (localize_hidden c = false ->
      fs (write_symbol_list E c t w).2 !! symbol_list_path c t = Some (File "")).
Proof.
  intros Hk.
  assert (Hg : forall nm_text, global_pass c nm_text = []).
  { intros nm_text. unfold global_pass.
    induction (global_symbols nm_text) as [|s l IH]; [reflexivity|].
    simpl. unfold kept_global at 1. rewrite Hk.
    destruct (re_search (Star (Cls AnyChar)) s) eqn:Es; [exact IH|].
    exfalso. revert Es. apply any_text_matches. }
  assert (Hfile : localize_hidden c = false \/ (objdump_answer E c t w).2 = 0%Z ->
      fs (write_symbol_list E c t w).2 !! symbol_list_path c t
      = Some (File (render (hidden_pass c (objdump_answer E c t w).1)))).
  { intros H. rewrite write_symbol_list_eq. cbv zeta.
    assert (Hb : localize_hidden c && negb ((objdump_answer E c t w).2 =? 0)%Z = false).
    { destruct H as [->| ->]; [reflexivity|]. apply andb_false_r. }
    rewrite Hb. simpl. rewrite Hg, List.app_nil_r. apply lookup_insert_eq. }
  split; [exact Hg|]. split; [exact Hfile|].
  intros Hl. rewrite Hfile; [|left; exact Hl]. unfold hidden_pass. rewrite Hl. reflexivity.
Qed.

Lemma default_pattern_keeps_every_global_witness :
  keep_global_regex (Demo.config true (Star (Cls AnyChar))) = Star (Cls AnyChar)
  /\ Demo.symbol_list_of Demo.works (Demo.config true (Star (Cls AnyChar)))
     = Some (File ("my_api_init" +:+ nl)).
Proof.
  split; [reflexivity|].
  destruct (default_pattern_keeps_every_global
              Demo.works (Demo.config true (Star (Cls AnyChar))) Demo.temp_dir Demo.world
              eq_refl) as (_ & H & _).
  unfold Demo.symbol_list_of. rewrite H; [|right; reflexivity]. vm_compute. reflexivity.
Defined.
